(** * libcolord client: a shallow embedding of [cd-client.c]

    The client object of libcolord talks to the colord daemon over D-Bus
    and turns object paths of replies into reference-counted [CdDevice] and
    [CdProfile] objects.  The embedding keeps what the C code manipulates:

    - a heap of reference-counted blocks (the [CdClient] instance, the
      device and profile handles, the [GPtrArray]s handed to callers);
    - the static [cd_client_object] pointer and its GObject weak pointer;
    - the daemon, reached only through the calls the code makes
      ([g_dbus_proxy_new_for_bus_sync], [g_dbus_proxy_call_sync], and the
      binding of a handle to an object path), each recorded in a trace;
    - the GLib message log and the GObject signals emitted by the client.

    Functions are written in a state monad with abort: [None] stands for
    a run GLib does not define (a reply of the wrong GVariant type, a
    pointer that is not a live object where the code dereferences one). *)

From stdpp Require Import gmap strings list fin_maps relations.

Open Scope string_scope.

(** ** Values exchanged with GLib *)

#[local] Set Warnings "-register-all".

(** GVariant values of the types the client sees on the bus. *)
Inductive GVariant :=
| GVString (s : string)               (* "s" *)
| GVObjectPath (s : string)           (* "o" *)
| GVUint32 (n : Z)                    (* "u" *)
| GVArray (items : list GVariant)     (* "a?" *)
| GVTuple (items : list GVariant).    (* "(...)" *)

(** A [GError]: error domain (the quark's string), code and message. *)
Record GError := mkGError {
  domain : string;
  code : Z;
  message : string
}.

(** A [GCancellable *] is an opaque token handed on to the transport;
    [None] is the NULL pointer. *)
Definition GCancellable := nat.

(** Addresses of heap blocks; a NULL pointer is [None : option addr]. *)
Abbreviation addr := nat.

(** [quark = g_quark_from_static_string ("cd_client_error")]. *)
Definition cd_client_error_quark : string := "cd_client_error".
Definition CD_CLIENT_ERROR : string := cd_client_error_quark.

(** Handlers attached with [g_signal_connect]. *)
Inductive Callback := G_CALLBACK_cd_client_dbus_signal_cb.

Record SignalHandler := mkHandler {
  detailed_signal : string;
  c_handler : Callback;
  user_data : addr
}.

(** A [GDBusProxy] for a remote object: its property cache and the
    handlers connected to it. *)
Record GDBusProxy := mkProxy {
  cached_properties : gmap string GVariant;
  signal_handlers : list SignalHandler
}.

(** [struct _CdClientPrivate]. *)
Record CdClientPrivate := mkPriv {
  proxy : option GDBusProxy;
  daemon_version : option string
}.

(** The two kinds of handle the client creates. *)
Inductive HandleVariant := Device | Profile.

(** Modelled from the spec: the private data of [CdDevice] and [CdProfile]
    ([cd-device.c] and [cd-profile.c] are not among the sources).  A handle
    holds the remote object path it is bound to and is created unbound. *)
Record ObjectHandle := mkHandle {
  variant : HandleVariant;
  object_path : option string;
  bound : bool
}.

(** The only location registered with [g_object_add_weak_pointer]. *)
Inductive WeakLocation := Loc_cd_client_object.

Inductive DestroyNotify := Notify_g_object_unref.

Inductive Payload :=
| PClient (priv : CdClientPrivate)
| PHandle (h : ObjectHandle)
| PPtrArray (pdata : list addr) (element_free_func : option DestroyNotify).

(** A heap block: every object the code allocates carries a reference
    count; GObjects also carry their weak-pointer locations. *)
Record Block := mkBlock {
  ref_count : nat;
  weak_pointers : list WeakLocation;
  payload : Payload
}.

(** [enum { CD_CLIENT_CHANGED, CD_CLIENT_DEVICE_ADDED,
           CD_CLIENT_DEVICE_REMOVED, CD_CLIENT_LAST_SIGNAL }]. *)
Inductive ClientSignal :=
| CD_CLIENT_CHANGED
| CD_CLIENT_DEVICE_ADDED
| CD_CLIENT_DEVICE_REMOVED.

(** One [g_signal_emit] on a client: what its observers receive. *)
Record Emission := mkEmission {
  emitter : addr;
  signal_id : ClientSignal;
  signal_arg : option string
}.

Inductive LogLevel := LOG_DEBUG | LOG_WARNING | LOG_CRITICAL.

(** What the client asks of the daemon, in the order it asks. *)
Inductive RemoteCall :=
| ProxyNew (service path interface : string)
| ProxyCall (method : string) (parameters : option GVariant)
| SetObjectPath (v : HandleVariant) (path : string).

(** ** The platform

    The daemon and the pieces of libcolord that [cd-client.c] uses but
    that are declared elsewhere ([cd-client.h], [cd-enum.h],
    [cd-device.c], [cd-profile.c]). *)
Class Platform := {
  (** state of the daemon and of the bus *)
  World : Type;
  (** [g_dbus_proxy_new_for_bus_sync] on the system bus *)
  proxy_new_for_bus :
    World -> string -> string -> string -> option GCancellable ->
    (GDBusProxy + GError) * World;
  (** [g_dbus_proxy_call_sync]: a reply, or NULL with an error set *)
  proxy_call :
    World -> GDBusProxy -> string -> option GVariant ->
    option GCancellable -> (GVariant + GError) * World;
  (** the fetch behind [cd_device_set_object_path_sync] and
      [cd_profile_set_object_path_sync]: [None] when it succeeds, the
      error it sets when it fails *)
  object_fetch :
    World -> HandleVariant -> string -> option GCancellable ->
    option GError * World;
  COLORD_DBUS_SERVICE : string;
  COLORD_DBUS_PATH : string;
  COLORD_DBUS_INTERFACE : string;
  CD_CLIENT_ERROR_FAILED : Z;
  CdDeviceKind : Type;
  cd_device_kind_to_string : CdDeviceKind -> string
}.

Section Client.

Context `{Platform}.

(** ** Process state *)

Record Process := mkProcess {
  heap : gmap nat Block;
  cd_client_object : option addr;      (* static gpointer cd_client_object *)
  world : World;
  remote_calls : list RemoteCall;
  emissions : list Emission;
  messages : list (LogLevel * string)
}.

Definition set_heap (h : gmap nat Block) (s : Process) : Process :=
  mkProcess h (cd_client_object s) (world s) (remote_calls s)
            (emissions s) (messages s).

Definition set_cd_client_object (p : option addr) (s : Process) : Process :=
  mkProcess (heap s) p (world s) (remote_calls s) (emissions s) (messages s).

Definition set_world (w : World) (s : Process) : Process :=
  mkProcess (heap s) (cd_client_object s) w (remote_calls s)
            (emissions s) (messages s).

Definition record_call (c : RemoteCall) (s : Process) : Process :=
  mkProcess (heap s) (cd_client_object s) (world s) (remote_calls s ++ [c])
            (emissions s) (messages s).

Definition record_emission (e : Emission) (s : Process) : Process :=
  mkProcess (heap s) (cd_client_object s) (world s) (remote_calls s)
            (emissions s ++ [e]) (messages s).

Definition record_message (l : LogLevel) (m : string) (s : Process) : Process :=
  mkProcess (heap s) (cd_client_object s) (world s) (remote_calls s)
            (emissions s) (messages s ++ [(l, m)]).

(** ** The monad *)

Definition M (A : Type) : Type := Process -> option (A * Process).

Definition ret {A} (a : A) : M A := fun s => Some (a, s).

Definition bind {A B} (m : M A) (k : A -> M B) : M B :=
  fun s => match m s with
           | Some (a, s') => k a s'
           | None => None
           end.

Definition abort {A} : M A := fun _ => None.

Definition get_state : M Process := fun s => Some (s, s).

Definition modify (f : Process -> Process) : M unit := fun s => Some (tt, f s).

Notation "x <- m ;; k" := (bind m (fun x => k))
  (at level 100, m at next level, right associativity).
Notation "m ;;; k" := (bind m (fun _ => k))
  (at level 100, right associativity).

Fixpoint foreach {A} (f : A -> M unit) (l : list A) : M unit :=
  match l with
  | [] => ret tt
  | x :: l' => f x ;;; foreach f l'
  end.

(** ** GLib *)

Definition g_log (l : LogLevel) (m : string) : M unit :=
  modify (record_message l m).

Definition g_debug : string -> M unit := g_log LOG_DEBUG.
Definition g_warning : string -> M unit := g_log LOG_WARNING.

(** The failing branch of [g_return_val_if_fail (expr, val)]: a critical
    message is logged and [val] is returned. *)
Definition g_return_val_if_fail_failed {A} (expr : string) (val : A) : M A :=
  g_log LOG_CRITICAL ("assertion '" ++ expr ++ "' failed") ;;; ret val.

(** [g_set_error (error, domain, code, format, ...)], for a caller that
    passed the address of a NULL [GError *]. *)
Definition g_set_error (d : string) (c : Z) (m : string) : GError :=
  mkGError d c m.

(** *** Reference-counted blocks *)

Definition g_object_new (p : Payload) : M addr := fun s =>
  let a := fresh (dom (heap s)) in
  Some (a, set_heap (<[a := mkBlock 1 [] p]> (heap s)) s).

Definition g_object_ref (a : addr) : M unit := fun s =>
  match heap s !! a with
  | Some b =>
      Some (tt, set_heap (<[a := mkBlock (S (ref_count b)) (weak_pointers b)
                                         (payload b)]> (heap s)) s)
  | None => None
  end.

Definition g_object_add_weak_pointer (a : addr) (l : WeakLocation) : M unit :=
  fun s =>
  match heap s !! a with
  | Some b =>
      Some (tt, set_heap (<[a := mkBlock (ref_count b) (l :: weak_pointers b)
                                         (payload b)]> (heap s)) s)
  | None => None
  end.

(** A weak pointer location is set to NULL when its object goes away. *)
Definition clear_weak_pointer (l : WeakLocation) (s : Process) : Process :=
  match l with
  | Loc_cd_client_object => set_cd_client_object None s
  end.

(** [cd_client_finalize]: [g_free (client->priv->daemon_version)], the
    proxy is unreferenced, the instance is gone. *)
Definition cd_client_finalize (object : addr) : M unit :=
  modify (fun s => set_heap (delete object (heap s)) s).

(** Modelled from the spec: the finalizer of a device or profile handle
    ([cd-device.c], [cd-profile.c]): plain release of the local object, no
    call to the daemon. *)
Definition cd_handle_finalize (object : addr) : M unit :=
  modify (fun s => set_heap (delete object (heap s)) s).

Definition g_object_unref (a : addr) : M unit := fun s =>
  match heap s !! a with
  | Some b =>
      match ref_count b with
      | S (S n) =>
          Some (tt, set_heap (<[a := mkBlock (S n) (weak_pointers b)
                                             (payload b)]> (heap s)) s)
      | _ =>
          (* last reference: weak pointers are cleared, then finalize *)
          let s1 := foldr clear_weak_pointer s (weak_pointers b) in
          match payload b with
          | PClient _ => cd_client_finalize a s1
          | PHandle _ => cd_handle_finalize a s1
          | PPtrArray _ _ => None
          end
      end
  | None => None
  end.

Definition g_ptr_array_new_with_free_func (f : DestroyNotify) : M addr :=
  g_object_new (PPtrArray [] (Some f)).

Definition g_ptr_array_add (array : addr) (data : addr) : M unit := fun s =>
  match heap s !! array with
  | Some (mkBlock rc wp (PPtrArray pdata f)) =>
      Some (tt, set_heap (<[array := mkBlock rc wp (PPtrArray (pdata ++ [data]) f)]>
                            (heap s)) s)
  | _ => None
  end.

Definition g_ptr_array_ref (array : addr) : M addr := fun s =>
  match heap s !! array with
  | Some (mkBlock rc wp (PPtrArray pdata f)) =>
      Some (array, set_heap (<[array := mkBlock (S rc) wp (PPtrArray pdata f)]>
                               (heap s)) s)
  | _ => None
  end.

Definition destroy_notify (f : DestroyNotify) : addr -> M unit :=
  match f with
  | Notify_g_object_unref => g_object_unref
  end.

(** Dropping the last reference frees every element with the array's
    free function, then the array. *)
Definition g_ptr_array_unref (array : addr) : M unit := fun s =>
  match heap s !! array with
  | Some (mkBlock rc wp (PPtrArray pdata f)) =>
      match rc with
      | S (S n) =>
          Some (tt, set_heap (<[array := mkBlock (S n) wp (PPtrArray pdata f)]>
                                (heap s)) s)
      | _ =>
          (match f with
           | Some f => foreach (destroy_notify f) pdata
           | None => ret tt
           end ;;;
           modify (fun s => set_heap (delete array (heap s)) s)) s
      end
  | _ => None
  end.

(** *** GVariant accessors

    GVariant values are immutable; their own reference counts are not
    tracked. *)

Definition g_variant_children (v : GVariant) : option (list GVariant) :=
  match v with
  | GVArray l | GVTuple l => Some l
  | _ => None
  end.

Definition g_variant_get_child_value (v : GVariant) (i : nat) : M GVariant :=
  match g_variant_children v with
  | Some l => match l !! i with
              | Some c => ret c
              | None => abort
              end
  | None => abort
  end.

(** [g_variant_iter_init] returns the number of items of the container.
    A D-Bus array is at most 2^26 bytes long, so the count fits the
    [guint] the callers store it in. *)
Definition g_variant_iter_init (v : GVariant) : M nat :=
  match g_variant_children v with
  | Some l => ret (length l)
  | None => abort
  end.

(** [g_variant_get_child (v, i, "o", &path)]. *)
Definition g_variant_get_child_o (v : GVariant) (i : nat) : M string :=
  c <- g_variant_get_child_value v i ;;
  match c with
  | GVObjectPath p => ret p
  | _ => abort
  end.

(** [g_variant_get (v, "(o)", &path)]. *)
Definition g_variant_get_o (v : GVariant) : M string :=
  match v with
  | GVTuple [GVObjectPath p] => ret p
  | _ => abort
  end.

(** [g_variant_new ("(su)", id, options)] and [g_variant_new ("(s)", id)]. *)
Definition g_variant_new_su (id : string) (options : Z) : GVariant :=
  GVTuple [GVString id; GVUint32 options].

Definition g_variant_new_s (id : string) : GVariant :=
  GVTuple [GVString id].

(** [g_variant_dup_string]: a copy of the string of a string-typed value,
    NULL (after a critical) for any other type. *)
Definition g_variant_dup_string (v : GVariant) : option string :=
  match v with
  | GVString s | GVObjectPath s => Some s
  | _ => None
  end.

(** *** GDBus *)

Definition g_dbus_proxy_new_for_bus_sync (name path iface : string)
    (cancellable : option GCancellable) : M (GDBusProxy + GError) := fun s =>
  let '(r, w) := proxy_new_for_bus (world s) name path iface cancellable in
  Some (r, set_world w (record_call (ProxyNew name path iface) s)).

Definition g_dbus_proxy_call_sync (px : GDBusProxy) (method : string)
    (parameters : option GVariant) (cancellable : option GCancellable)
    : M (GVariant + GError) := fun s =>
  let '(r, w) := proxy_call (world s) px method parameters cancellable in
  Some (r, set_world w (record_call (ProxyCall method parameters) s)).

(** A property of the proxy's cache; no message is sent. *)
Definition g_dbus_proxy_get_cached_property (px : GDBusProxy) (name : string)
    : option GVariant :=
  cached_properties px !! name.

(** ** Device and profile handles *)

(** Modelled from the spec: [cd_device_new] and [cd_profile_new]
    ([cd-device.c], [cd-profile.c]): a new handle, unbound, with one
    reference. *)
Definition cd_handle_new (v : HandleVariant) : M addr :=
  g_object_new (PHandle (mkHandle v None false)).

Definition cd_device_new : M addr := cd_handle_new Device.
Definition cd_profile_new : M addr := cd_handle_new Profile.

(** Modelled from the spec: [cd_device_set_object_path_sync] and
    [cd_profile_set_object_path_sync] ([cd-device.c], [cd-profile.c]): the
    property set of the remote object at [path] is fetched; when the fetch
    succeeds the handle records the path and becomes bound, when it fails
    the handle is left as it was and the error is returned ([Some e] stands
    for FALSE with [*error = e], [None] for TRUE). *)
Definition cd_handle_set_object_path_sync (v : HandleVariant) (h : addr)
    (path : string) (cancellable : option GCancellable) : M (option GError) :=
  fun s =>
  match heap s !! h with
  | Some (mkBlock rc wp (PHandle hd)) =>
      let '(r, w) := object_fetch (world s) v path cancellable in
      let s1 := set_world w (record_call (SetObjectPath v path) s) in
      match r with
      | Some e => Some (Some e, s1)
      | None =>
          Some (None,
                set_heap (<[h := mkBlock rc wp
                                   (PHandle (mkHandle (variant hd) (Some path) true))]>
                            (heap s1)) s1)
      end
  | _ => None
  end.

Definition cd_device_set_object_path_sync :=
  cd_handle_set_object_path_sync Device.
Definition cd_profile_set_object_path_sync :=
  cd_handle_set_object_path_sync Profile.

(** ** The client *)

(** The private data behind a pointer that passes [CD_IS_CLIENT].  The
    macro is defined on live GObjects; on an address that holds no live
    object the guards below take their failing branch, and the
    statements about them are made on live objects. *)
Definition client_priv (h : gmap nat Block) (client : addr)
    : option CdClientPrivate :=
  match h !! client with
  | Some b => match payload b with
              | PClient priv => Some priv
              | _ => None
              end
  | None => None
  end.

Definition set_client_priv (client : addr) (priv : CdClientPrivate) : M unit :=
  fun s =>
  match heap s !! client with
  | Some (mkBlock rc wp (PClient _)) =>
      Some (tt, set_heap (<[client := mkBlock rc wp (PClient priv)]> (heap s)) s)
  | _ => None
  end.

(** The two guards that open every call except connect and the version
    getter:
    [g_return_val_if_fail (CD_IS_CLIENT (client), val);]
    [g_return_val_if_fail (client->priv->proxy != NULL, val);] *)
Definition with_proxy {A} (client : addr) (val : A) (k : GDBusProxy -> M A)
    : M A :=
  s <- get_state ;;
  match client_priv (heap s) client with
  | None => g_return_val_if_fail_failed "CD_IS_CLIENT (client)" val
  | Some priv =>
      match proxy priv with
      | None => g_return_val_if_fail_failed "client->priv->proxy != NULL" val
      | Some px => k px
      end
  end.

Definition failed_to (method : string) (error_local : GError) : GError :=
  g_set_error CD_CLIENT_ERROR CD_CLIENT_ERROR_FAILED
              ("Failed to " ++ method ++ ": " ++ message error_local).

(** *** Arrays of handles

    [cd_client_get_device_array_from_variant] and
    [cd_client_get_profile_array_from_variant] are the same function up to
    the handle type and the word in the message.  The loop
    [for (i = 0; i < len; i++)] runs [n = len - i] more iterations; it
    returns the error set before [goto out], or [None] when it runs to
    its end. *)
Fixpoint array_from_variant_loop (v : HandleVariant) (failure : string)
    (n i : nat) (child : GVariant) (array_tmp : addr)
    (cancellable : option GCancellable) : M (option GError) :=
  match n with
  | 0 => ret None
  | S n' =>
      object_path_tmp <- g_variant_get_child_o child i ;;
      g_debug object_path_tmp ;;;
      (* create the handle and add it to the array *)
      object <- cd_handle_new v ;;
      ok <- cd_handle_set_object_path_sync v object object_path_tmp
                                           cancellable ;;
      match ok with
      | Some error_local =>
          let error := g_set_error CD_CLIENT_ERROR CD_CLIENT_ERROR_FAILED
                                   (failure ++ message error_local) in
          g_object_unref object ;;;
          ret (Some error)
      | None =>
          g_ptr_array_add array_tmp object ;;;
          array_from_variant_loop v failure n' (S i) child array_tmp
                                  cancellable
      end
  end.

Definition array_from_variant (v : HandleVariant) (failure : string)
    (result : GVariant) (cancellable : option GCancellable)
    : M (option addr * option GError) :=
  array_tmp <- g_ptr_array_new_with_free_func Notify_g_object_unref ;;
  child <- g_variant_get_child_value result 0 ;;
  len <- g_variant_iter_init child ;;
  error <- array_from_variant_loop v failure len 0 child array_tmp
                                   cancellable ;;
  array <- match error with
           | None => a <- g_ptr_array_ref array_tmp ;; ret (Some a)
           | Some _ => ret None
           end ;;
  (* out: *)
  g_ptr_array_unref array_tmp ;;;
  ret (array, error).

Definition cd_client_get_device_array_from_variant :=
  array_from_variant Device "Failed to set device object path: ".

Definition cd_client_get_profile_array_from_variant :=
  array_from_variant Profile "Failed to set profile object path: ".

(** The common body of the three list calls. *)
Definition list_sync (v : HandleVariant) (failure : string) (client : addr)
    (method : string) (parameters : option GVariant)
    (cancellable : option GCancellable) : M (option addr * option GError) :=
  with_proxy client (None, None) (fun px =>
    result <- g_dbus_proxy_call_sync px method parameters cancellable ;;
    match result with
    | inr error_local => ret (None, Some (failed_to method error_local))
    | inl result => array_from_variant v failure result cancellable
    end).

Definition cd_client_get_devices_sync (client : addr)
    (cancellable : option GCancellable) :=
  list_sync Device "Failed to set device object path: " client
            "GetDevices" None cancellable.

Definition cd_client_get_devices_by_kind_sync (client : addr)
    (kind : CdDeviceKind) (cancellable : option GCancellable) :=
  list_sync Device "Failed to set device object path: " client
            "GetDevicesByKind"
            (Some (g_variant_new_s (cd_device_kind_to_string kind)))
            cancellable.

Definition cd_client_get_profiles_sync (client : addr)
    (cancellable : option GCancellable) :=
  list_sync Profile "Failed to set profile object path: " client
            "GetProfiles" None cancellable.

(** *** One handle from one reply

    The common body of the create and find calls: the reply is [(o)],
    the handle is bound with the caller's [error]. *)
Definition object_sync (v : HandleVariant) (client : addr) (method : string)
    (parameters : GVariant) (cancellable : option GCancellable)
    : M (option addr * option GError) :=
  with_proxy client (None, None) (fun px =>
    result <- g_dbus_proxy_call_sync px method (Some parameters)
                                     cancellable ;;
    match result with
    | inr error_local => ret (None, Some (failed_to method error_local))
    | inl result =>
        object_path <- g_variant_get_o result ;;
        object_tmp <- cd_handle_new v ;;
        ok <- cd_handle_set_object_path_sync v object_tmp object_path
                                             cancellable ;;
        match ok with
        | Some error =>
            g_object_unref object_tmp ;;;
            ret (None, Some error)
        | None =>
            g_object_ref object_tmp ;;;
            g_object_unref object_tmp ;;;
            ret (Some object_tmp, None)
        end
    end).

Definition cd_client_create_device_sync (client : addr) (id : string)
    (options : Z) (cancellable : option GCancellable) :=
  object_sync Device client "CreateDevice" (g_variant_new_su id options)
              cancellable.

Definition cd_client_create_profile_sync (client : addr) (id : string)
    (options : Z) (cancellable : option GCancellable) :=
  object_sync Profile client "CreateProfile" (g_variant_new_su id options)
              cancellable.

Definition cd_client_find_device_sync (client : addr) (id : string)
    (cancellable : option GCancellable) :=
  object_sync Device client "FindDeviceById" (g_variant_new_s id)
              cancellable.

Definition cd_client_find_profile_sync (client : addr) (id : string)
    (cancellable : option GCancellable) :=
  object_sync Profile client "FindProfileById" (g_variant_new_s id)
              cancellable.

(** *** Deleting by id *)
Definition delete_sync (client : addr) (method : string) (id : string)
    (cancellable : option GCancellable) : M (bool * option GError) :=
  with_proxy client (false, None) (fun px =>
    result <- g_dbus_proxy_call_sync px method (Some (g_variant_new_s id))
                                     cancellable ;;
    match result with
    | inr error_local => ret (false, Some (failed_to method error_local))
    | inl _ => ret (true, None)
    end).

Definition cd_client_delete_device_sync (client : addr) (id : string)
    (cancellable : option GCancellable) :=
  delete_sync client "DeleteDevice" id cancellable.

Definition cd_client_delete_profile_sync (client : addr) (id : string)
    (cancellable : option GCancellable) :=
  delete_sync client "DeleteProfile" id cancellable.

(** *** Signals from the daemon *)

(** What a handler attached with [g_signal_connect] emits on the client
    would be an [Emission]. *)
Definition g_signal_emit (e : Emission) : M unit :=
  modify (record_emission e).

(** [cd_client_dbus_signal_cb]; each of the four [//EMIT] comments of the
    source stands where nothing is done with the path. *)
Definition cd_client_dbus_signal_cb (px : GDBusProxy)
    (sender_name signal_name : string) (parameters : GVariant)
    (client : addr) : M unit :=
  if decide (signal_name = "Changed") then
    g_warning "changed"
  else if decide (signal_name = "DeviceAdded") then
    object_path_tmp <- g_variant_get_o parameters ;; ret tt
  else if decide (signal_name = "DeviceRemoved") then
    object_path_tmp <- g_variant_get_o parameters ;; ret tt
  else if decide (signal_name = "ProfileAdded") then
    object_path_tmp <- g_variant_get_o parameters ;; ret tt
  else if decide (signal_name = "ProfileRemoved") then
    object_path_tmp <- g_variant_get_o parameters ;; ret tt
  else
    g_warning ("unhandled signal '" ++ signal_name ++ "'").

(** *** Connecting *)

Definition g_signal_connect (px : GDBusProxy) (detailed : string)
    (cb : Callback) (data : addr) : GDBusProxy :=
  mkProxy (cached_properties px)
          (signal_handlers px ++ [mkHandler detailed cb data]).

Definition cd_client_connect_sync (client : addr)
    (cancellable : option GCancellable) : M (bool * option GError) :=
  s <- get_state ;;
  match client_priv (heap s) client with
  | None => g_return_val_if_fail_failed "CD_IS_CLIENT (client)" (false, None)
  | Some priv =>
      match proxy priv with
      | Some _ =>
          g_return_val_if_fail_failed "client->priv->proxy == NULL"
                                      (false, None)
      | None =>
          (* connect to the daemon *)
          r <- g_dbus_proxy_new_for_bus_sync COLORD_DBUS_SERVICE
                 COLORD_DBUS_PATH COLORD_DBUS_INTERFACE cancellable ;;
          match r with
          | inr error_local =>
              ret (false,
                   Some (g_set_error CD_CLIENT_ERROR CD_CLIENT_ERROR_FAILED
                           ("Failed to connect to colord: "
                            ++ message error_local)))
          | inl px =>
              (* get daemon version *)
              let version :=
                match g_dbus_proxy_get_cached_property px "Title" with
                | Some v => g_variant_dup_string v
                | None => daemon_version priv
                end in
              (* get signals from DBus *)
              let px := g_signal_connect px "g-signal"
                          G_CALLBACK_cd_client_dbus_signal_cb client in
              set_client_priv client (mkPriv (Some px) version) ;;;
              g_debug ("Connected to colord daemon version "
                       ++ default "(null)" version) ;;;
              ret (true, None)
          end
      end
  end.

Definition cd_client_get_daemon_version (client : addr)
    : M (option string) :=
  s <- get_state ;;
  match client_priv (heap s) client with
  | None => g_return_val_if_fail_failed "CD_IS_CLIENT (client)" None
  | Some priv => ret (daemon_version priv)
  end.

(** *** The property of the object *)

(** [enum { PROP_0, PROP_DAEMON_VERSION, PROP_LAST }]. *)
Definition PROP_0 : nat := 0.
Definition PROP_DAEMON_VERSION : nat := 1.
Definition PROP_LAST : nat := 2.

(** A [GValue] initialised for a string property: the string it holds,
    NULL at first. *)
Definition GValue := option string.

Definition g_value_set_string (value : GValue) (v_string : option string)
    : GValue :=
  v_string.

(** [G_OBJECT_WARN_INVALID_PROPERTY_ID (object, prop_id, pspec)]: one
    warning that names the property. *)
Definition G_OBJECT_WARN_INVALID_PROPERTY_ID (object : addr) (prop_id : nat)
    (pspec : string) : M unit :=
  g_warning ("invalid property id for '" ++ pspec ++ "'").

(** [cd_client_get_property]; [pspec] is the name of the parameter
    specification, [value] the value to fill, and the filled value is
    returned.  [CD_CLIENT (object)] followed by [client->priv] is defined
    only on a client. *)
Definition cd_client_get_property (object : addr) (prop_id : nat)
    (value : GValue) (pspec : string) : M GValue :=
  s <- get_state ;;
  match client_priv (heap s) object with
  | None => abort
  | Some priv =>
      if decide (prop_id = PROP_DAEMON_VERSION) then
        ret (g_value_set_string value (daemon_version priv))
      else
        G_OBJECT_WARN_INVALID_PROPERTY_ID object prop_id pspec ;;;
        ret value
  end.

(** *** The singleton *)

(** [g_object_new (CD_TYPE_CLIENT, NULL)]: the private data starts zeroed
    and [cd_client_init] only sets [client->priv]. *)
Definition cd_client_new : M addr :=
  s <- get_state ;;
  match cd_client_object s with
  | Some object =>
      g_object_ref object ;;;
      ret object
  | None =>
      object <- g_object_new (PClient (mkPriv None None)) ;;
      modify (set_cd_client_object (Some object)) ;;;
      g_object_add_weak_pointer object Loc_cd_client_object ;;;
      ret object
  end.

(** ** The call surface as one type

    Every call of the client except connect, with what it returns: a
    pointer (NULL is [None]), a boolean, or a string. *)
Inductive Operation :=
| GetDevices
| GetDevicesByKind (kind : CdDeviceKind)
| GetProfiles
| CreateDevice (id : string) (options : Z)
| CreateProfile (id : string) (options : Z)
| DeleteDevice (id : string)
| DeleteProfile (id : string)
| FindDevice (id : string)
| FindProfile (id : string)
| GetDaemonVersion.

Inductive Returned :=
| Pointer (p : option addr)
| Boolean (b : bool)
| String (str : option string).

Definition with_pointer (m : M (option addr * option GError))
    : M (Returned * option GError) :=
  r <- m ;; ret (Pointer r.1, r.2).

Definition with_boolean (m : M (bool * option GError))
    : M (Returned * option GError) :=
  r <- m ;; ret (Boolean r.1, r.2).

Definition run (op : Operation) (client : addr)
    (cancellable : option GCancellable) : M (Returned * option GError) :=
  match op with
  | GetDevices => with_pointer (cd_client_get_devices_sync client cancellable)
  | GetDevicesByKind kind =>
      with_pointer (cd_client_get_devices_by_kind_sync client kind cancellable)
  | GetProfiles => with_pointer (cd_client_get_profiles_sync client cancellable)
  | CreateDevice id options =>
      with_pointer (cd_client_create_device_sync client id options cancellable)
  | CreateProfile id options =>
      with_pointer (cd_client_create_profile_sync client id options cancellable)
  | DeleteDevice id =>
      with_boolean (cd_client_delete_device_sync client id cancellable)
  | DeleteProfile id =>
      with_boolean (cd_client_delete_profile_sync client id cancellable)
  | FindDevice id =>
      with_pointer (cd_client_find_device_sync client id cancellable)
  | FindProfile id =>
      with_pointer (cd_client_find_profile_sync client id cancellable)
  | GetDaemonVersion =>
      v <- cd_client_get_daemon_version client ;; ret (String v, None)
  end.

(** The value a call returns when it fails. *)
Definition failure_value (op : Operation) : Returned :=
  match op with
  | DeleteDevice _ | DeleteProfile _ => Boolean false
  | GetDaemonVersion => String None
  | _ => Pointer None
  end.

End Client.

Notation "x <- m ;; k" := (bind m (fun x => k))
  (at level 100, m at next level, right associativity).
Notation "m ;;; k" := (bind m (fun _ => k))
  (at level 100, right associativity).

(** ** Vocabulary of the statements *)
Section Vocabulary.

Context `{Platform}.

(** The reply [(ao)] of the list methods. *)
Definition paths_reply (l : list string) : GVariant :=
  GVTuple [GVArray (GVObjectPath <$> l)].

(** A handle of variant [v] bound to [p], held by one owner. *)
Definition handle_block (v : HandleVariant) (p : string) : Block :=
  mkBlock 1 [] (PHandle (mkHandle v (Some p) true)).

(** An array of handles held by one owner. *)
Definition array_block (pdata : list addr) : Block :=
  mkBlock 1 [] (PPtrArray pdata (Some Notify_g_object_unref)).

(** What the daemon answers when the paths of a list are fetched in
    order, up to the first failure: the number of paths fetched before
    it, the error of the failing fetch if any, and the daemon after. *)
Fixpoint fetch_all (v : HandleVariant) (c : option GCancellable)
    (paths : list string) (w : World) : nat * option GError * World :=
  match paths with
  | [] => (0, None, w)
  | p :: paths' =>
      match object_fetch w v p c with
      | (Some e, w') => (0, Some e, w')
      | (None, w') =>
          let r := fetch_all v c paths' w' in
          (S r.1.1, r.1.2, r.2)
      end
  end.

(** The bind calls issued for a list of paths. *)
Definition set_object_paths (v : HandleVariant) (paths : list string)
    : list RemoteCall :=
  SetObjectPath v <$> paths.

(** [h'] is [h] with, in addition, the array [arr] and the handles
    [addrs], bound in order to [paths]. *)
Definition extends (h : gmap nat Block) (arr : addr) (v : HandleVariant)
    (addrs : list addr) (paths : list string) (h' : gmap nat Block) : Prop :=
  h !! arr = None ∧
  h' !! arr = Some (array_block addrs) ∧
  Forall2 (λ a p, h' !! a = Some (handle_block v p)) addrs paths ∧
  Forall (λ a, h !! a = None) addrs ∧
  NoDup addrs ∧
  ∀ a, a ≠ arr → a ∉ addrs → h' !! a = h !! a.

(** An error of the client's own domain and code. *)
Definition client_error (e : GError) : Prop :=
  domain e = CD_CLIENT_ERROR ∧ code e = CD_CLIENT_ERROR_FAILED.

(** The client behind [client] is live and has a transport. *)
Definition connected_with (s : Process) (client : addr) (px : GDBusProxy)
    : Prop :=
  ∃ priv, client_priv (heap s) client = Some priv ∧ proxy priv = Some px.

(** The client behind [client] is live and has no transport. *)
Definition unconnected (s : Process) (client : addr) : Prop :=
  ∃ priv, client_priv (heap s) client = Some priv ∧ proxy priv = None.

(** The three list calls, with their method, argument, handle variant
    and the message put before a bind error. *)
Inductive ListCall :=
| ListDevices
| ListDevicesByKind (kind : CdDeviceKind)
| ListProfiles.

Definition list_operation (l : ListCall) : Operation :=
  match l with
  | ListDevices => GetDevices
  | ListDevicesByKind kind => GetDevicesByKind kind
  | ListProfiles => GetProfiles
  end.

Definition list_method (l : ListCall) : string :=
  match l with
  | ListDevices => "GetDevices"
  | ListDevicesByKind _ => "GetDevicesByKind"
  | ListProfiles => "GetProfiles"
  end.

Definition list_parameters (l : ListCall) : option GVariant :=
  match l with
  | ListDevicesByKind kind =>
      Some (g_variant_new_s (cd_device_kind_to_string kind))
  | _ => None
  end.

Definition list_variant (l : ListCall) : HandleVariant :=
  match l with
  | ListProfiles => Profile
  | _ => Device
  end.

Definition list_failure (l : ListCall) : string :=
  match l with
  | ListProfiles => "Failed to set profile object path: "
  | _ => "Failed to set device object path: "
  end.

(** The error a list call reports when a handle cannot be bound: the
    bind error's message after the call's own words. *)
Definition wrap_failure (failure : string) (e : GError) : GError :=
  g_set_error CD_CLIENT_ERROR CD_CLIENT_ERROR_FAILED (failure ++ message e).

Definition list_call (l : ListCall) (client : addr)
    (cancellable : option GCancellable) : M (option addr * option GError) :=
  match l with
  | ListDevices => cd_client_get_devices_sync client cancellable
  | ListDevicesByKind kind =>
      cd_client_get_devices_by_kind_sync client kind cancellable
  | ListProfiles => cd_client_get_profiles_sync client cancellable
  end.

(** The two delete calls. *)
Inductive DeleteCall :=
| DeleteDeviceById
| DeleteProfileById.

Definition delete_method (d : DeleteCall) : string :=
  match d with
  | DeleteDeviceById => "DeleteDevice"
  | DeleteProfileById => "DeleteProfile"
  end.

Definition delete_call (d : DeleteCall) (client : addr) (id : string)
    (cancellable : option GCancellable) : M (bool * option GError) :=
  match d with
  | DeleteDeviceById => cd_client_delete_device_sync client id cancellable
  | DeleteProfileById => cd_client_delete_profile_sync client id cancellable
  end.

(** The invariant of a pass over a reply: the block at [x] is as it was,
    and [x] is neither the array under construction nor one of its
    elements. *)
Definition apart (x : addr) (b : Block) (arr : addr) (s : Process) : Prop :=
  heap s !! x = Some b ∧
  arr ≠ x ∧
  ∀ rc wp pdata f,
    heap s !! arr = Some (mkBlock rc wp (PPtrArray pdata f)) → x ∉ pdata.

(** The four calls that return one handle. *)
Inductive ObjectCall :=
| CreateDeviceCall (id : string) (options : Z)
| CreateProfileCall (id : string) (options : Z)
| FindDeviceCall (id : string)
| FindProfileCall (id : string).

Definition object_method (o : ObjectCall) : string :=
  match o with
  | CreateDeviceCall _ _ => "CreateDevice"
  | CreateProfileCall _ _ => "CreateProfile"
  | FindDeviceCall _ => "FindDeviceById"
  | FindProfileCall _ => "FindProfileById"
  end.

Definition object_parameters (o : ObjectCall) : GVariant :=
  match o with
  | CreateDeviceCall id options | CreateProfileCall id options =>
      g_variant_new_su id options
  | FindDeviceCall id | FindProfileCall id => g_variant_new_s id
  end.

Definition object_variant (o : ObjectCall) : HandleVariant :=
  match o with
  | CreateDeviceCall _ _ | FindDeviceCall _ => Device
  | CreateProfileCall _ _ | FindProfileCall _ => Profile
  end.

Definition object_call (o : ObjectCall) (client : addr)
    (cancellable : option GCancellable) : M (option addr * option GError) :=
  match o with
  | CreateDeviceCall id options =>
      cd_client_create_device_sync client id options cancellable
  | CreateProfileCall id options =>
      cd_client_create_profile_sync client id options cancellable
  | FindDeviceCall id => cd_client_find_device_sync client id cancellable
  | FindProfileCall id => cd_client_find_profile_sync client id cancellable
  end.

(** A caller making one call after the other on the same client. *)
Fixpoint run_all (ops : list Operation) (client : addr)
    (cancellable : option GCancellable) : M unit :=
  match ops with
  | [] => ret tt
  | op :: ops' => run op client cancellable ;;; run_all ops' client cancellable
  end.

(** What a program linked with the library can do to the process: any
    entry point of the client, on any arguments, and the release of any
    object or array. *)
Inductive step : Process → Process → Prop :=
| step_new s a s' :
    cd_client_new s = Some (a, s') → step s s'
| step_connect s client c r s' :
    cd_client_connect_sync client c s = Some (r, s') → step s s'
| step_run s op client c r s' :
    run op client c s = Some (r, s') → step s s'
| step_signal s px sender name parameters client s' :
    cd_client_dbus_signal_cb px sender name parameters client s
    = Some (tt, s') →
    step s s'
| step_get_property s object prop_id value pspec r s' :
    cd_client_get_property object prop_id value pspec s = Some (r, s') →
    step s s'
| step_object_unref s a s' :
    g_object_unref a s = Some (tt, s') → step s s'
| step_array_unref s a s' :
    g_ptr_array_unref a s = Some (tt, s') → step s s'.

(** The static pointer is NULL or names a live client that holds at
    least one reference and has the pointer registered as a weak
    pointer. *)
Definition singleton_ok (s : Process) : Prop :=
  ∀ a, cd_client_object s = Some a →
       ∃ n wp priv,
         heap s !! a = Some (mkBlock (S n) wp (PClient priv)) ∧
         Loc_cd_client_object ∈ wp.

(** Where a call that was entered in state [s0] has got to: the static
    pointer and every block of [s0] are as they were, the blocks made
    since carry no weak pointer, and the arrays made since hold only
    objects made since. *)
Definition aside (s0 s : Process) : Prop :=
  cd_client_object s = cd_client_object s0 ∧
  (∀ x b, heap s0 !! x = Some b → heap s !! x = Some b) ∧
  (∀ x b, heap s0 !! x = None → heap s !! x = Some b →
          weak_pointers b = []) ∧
  (∀ x rc wp pdata f,
     heap s0 !! x = None →
     heap s !! x = Some (mkBlock rc wp (PPtrArray pdata f)) →
     Forall (λ a, heap s0 !! a = None) pdata).

(** [n] times [g_object_unref]. *)
Fixpoint release (n : nat) (object : addr) : M unit :=
  match n with
  | 0 => ret tt
  | S n' => g_object_unref object ;;; release n' object
  end.

End Vocabulary.

(** ** A scripted daemon

    A small daemon to run the client against: it knows a list of device
    and profile paths, refuses to serve the property set of the paths
    listed as [broken], and answers every method of the interface. *)
Module Scripted.

Record Daemon := mkDaemon {
  reachable : bool;
  properties : gmap string GVariant;
  devices : list string;
  profiles : list string;
  broken : list string
}.

Definition bus_error (m : string) : GError := mkGError "g-dbus-error-quark" 0 m.

Definition device_error (m : string) : GError := mkGError "cd_device_error" 0 m.

Definition new_for_bus (d : Daemon) (name path iface : string)
    (c : option GCancellable) : (GDBusProxy + GError) * Daemon :=
  if reachable d then (inl (mkProxy (properties d) []), d)
  else (inr (bus_error "no such service"), d).

Definition call (d : Daemon) (px : GDBusProxy) (method : string)
    (parameters : option GVariant) (c : option GCancellable)
    : (GVariant + GError) * Daemon :=
  if decide (method = "GetDevices") then (inl (paths_reply (devices d)), d)
  else if decide (method = "GetDevicesByKind") then
    (inl (paths_reply (devices d)), d)
  else if decide (method = "GetProfiles") then
    (inl (paths_reply (profiles d)), d)
  else
    match parameters with
    | Some (GVTuple (GVString id :: _)) =>
        if decide (method = "CreateDevice") then
          (inl (GVTuple [GVObjectPath ("/devices/" ++ id)]), d)
        else if decide (method = "CreateProfile") then
          (inl (GVTuple [GVObjectPath ("/profiles/" ++ id)]), d)
        else if decide (method = "FindDeviceById") then
          if decide ("/devices/" ++ id ∈ devices d) then
            (inl (GVTuple [GVObjectPath ("/devices/" ++ id)]), d)
          else (inr (bus_error "device does not exist"), d)
        else if decide (method = "FindProfileById") then
          if decide ("/profiles/" ++ id ∈ profiles d) then
            (inl (GVTuple [GVObjectPath ("/profiles/" ++ id)]), d)
          else (inr (bus_error "profile does not exist"), d)
        else if decide (method = "DeleteDevice") then
          if decide ("/devices/" ++ id ∈ devices d) then (inl (GVTuple []), d)
          else (inr (bus_error "device does not exist"), d)
        else if decide (method = "DeleteProfile") then
          if decide ("/profiles/" ++ id ∈ profiles d) then (inl (GVTuple []), d)
          else (inr (bus_error "profile does not exist"), d)
        else (inr (bus_error "unknown method"), d)
    | _ => (inr (bus_error "invalid arguments"), d)
    end.

Definition fetch (d : Daemon) (v : HandleVariant) (path : string)
    (c : option GCancellable) : option GError * Daemon :=
  if decide (path ∈ broken d) then
    (Some (device_error ("Failed to connect to " ++ path)), d)
  else (None, d).

Definition kind_to_string (k : nat) : string :=
  match k with
  | 1 => "display"
  | 2 => "scanner"
  | 3 => "printer"
  | 4 => "camera"
  | _ => "unknown"
  end.

Definition platform : Platform := {|
  World := Daemon;
  proxy_new_for_bus := new_for_bus;
  proxy_call := call;
  object_fetch := fetch;
  COLORD_DBUS_SERVICE := "org.freedesktop.ColorManager";
  COLORD_DBUS_PATH := "/org/freedesktop/ColorManager";
  COLORD_DBUS_INTERFACE := "org.freedesktop.ColorManager";
  CD_CLIENT_ERROR_FAILED := 0;
  CdDeviceKind := nat;
  cd_device_kind_to_string := kind_to_string
|}.

(** A process that has not created a client yet. *)
Definition start (d : Daemon) : @Process platform :=
  @mkProcess platform ∅ None d [] [] [].

(** The state after [m], when it runs. *)
Definition after {A} (m : @M platform A) (s : @Process platform)
    : @Process platform :=
  match m s with
  | Some (_, s') => s'
  | None => s
  end.

Definition colord : Daemon :=
  mkDaemon true ∅
           ["/devices/epson-9800"; "/devices/dell-u2410"; "/devices/canon-5d"]
           ["/profiles/icc-001"; "/profiles/icc-002"]
           [].

(** The same daemon, with the object of the third device gone. *)
Definition colord_stale : Daemon :=
  mkDaemon true ∅
           ["/devices/epson-9800"; "/devices/dell-u2410"; "/devices/canon-5d"]
           ["/profiles/icc-001"; "/profiles/icc-002"]
           ["/devices/canon-5d"].

(** The same daemon, where the object of a device it creates cannot be
    reached. *)
Definition colord_fragile : Daemon :=
  mkDaemon true ∅
           ["/devices/dell-u2410"]
           ["/profiles/icc-001"; "/profiles/icc-002"]
           ["/devices/epson-9800"].

(** A root object that has a title but no version property. *)
Definition colord_titled : Daemon :=
  mkDaemon true {[ "Title" := GVString "Color Manager" ]} [] [] [].

(** A client that was created and not connected. *)
Definition created (d : Daemon) : @Process platform :=
  after (@cd_client_new platform) (start d).

(** A client that was created and connected, and its proxy. *)
Definition connected (d : Daemon) : @Process platform :=
  after (@cd_client_connect_sync platform 0 None)
        (after (@cd_client_new platform) (start d)).

Definition connected_proxy (d : Daemon) : GDBusProxy :=
  mkProxy (properties d)
          [mkHandler "g-signal" G_CALLBACK_cd_client_dbus_signal_cb 0].

End Scripted.

(** ** A daemon that refuses

    The bus hands out a proxy, and the daemon answers every method with
    an error. *)
Module Refusing.

Definition call (d : Scripted.Daemon) (px : GDBusProxy) (method : string)
    (parameters : option GVariant) (c : option GCancellable)
    : (GVariant + GError) * Scripted.Daemon :=
  (inr (Scripted.bus_error "access denied"), d).

Definition platform : Platform := {|
  World := Scripted.Daemon;
  proxy_new_for_bus := Scripted.new_for_bus;
  proxy_call := call;
  object_fetch := Scripted.fetch;
  COLORD_DBUS_SERVICE := "org.freedesktop.ColorManager";
  COLORD_DBUS_PATH := "/org/freedesktop/ColorManager";
  COLORD_DBUS_INTERFACE := "org.freedesktop.ColorManager";
  CD_CLIENT_ERROR_FAILED := 0;
  CdDeviceKind := nat;
  cd_device_kind_to_string := Scripted.kind_to_string
|}.

(** A client that was created and connected to it. *)
Definition connected : @Process platform :=
  match @cd_client_new platform (@mkProcess platform ∅ None Scripted.colord [] [] []) with
  | Some (_, s) =>
      match @cd_client_connect_sync platform 0 None s with
      | Some (_, s') => s'
      | None => s
      end
  | None => @mkProcess platform ∅ None Scripted.colord [] [] []
  end.

(** A daemon that is not on the bus. *)
Definition colord_down : Scripted.Daemon :=
  Scripted.mkDaemon false ∅ [] [] [].

End Refusing.

(** * Properties *)

Open Scope list_scope.
Open Scope nat_scope.

(** A hypothesis about a concrete process is settled by running it. *)
Ltac by_running := vm_compute; reflexivity.

Ltac is_connected := eexists; split; by_running.

Section Properties.
Context `{Platform}.

(** ** Running the monad *)

(** A newly allocated address is not live. *)
Lemma fresh_heap (h : gmap nat Block) : h !! fresh (dom h) = None.
Proof. apply not_elem_of_dom, is_fresh. Qed.

Lemma bind_Some {A B} (m : M A) (k : A -> M B) s a s1 :
  m s = Some (a, s1) → bind m k s = k a s1.
Proof. intros E. unfold bind. by rewrite E. Qed.

Lemma bind_inv {A B} (m : M A) (k : A -> M B) s r :
  bind m k s = Some r → ∃ a s1, m s = Some (a, s1) ∧ k a s1 = Some r.
Proof.
  unfold bind. destruct (m s) as [[a s1]|]; [|done]. intros E. by exists a, s1.
Qed.

(** ** The pass over the paths of a reply *)

Lemma extends_array_not_handle h arr v addrs paths h' :
  extends h arr v addrs paths h' → arr ∉ addrs.
Proof.
  intros (_ & Harr & Hall & _) Hin.
  apply list_elem_of_lookup in Hin as [i Hi].
  destruct (Forall2_lookup_l _ _ _ _ _ Hall Hi) as (p & _ & Hp).
  rewrite Harr in Hp. discriminate.
Qed.

Lemma extends_snoc h arr v addrs paths h' a p :
  extends h arr v addrs paths h' → h' !! a = None →
  extends h arr v (addrs ++ [a]) (paths ++ [p])
          (<[arr := array_block (addrs ++ [a])]> (<[a := handle_block v p]> h')).
Proof.
  intros (Hfree & Harr & Hall & Hnew & Hnd & Hframe) Ha.
  assert (a ≠ arr) as Hne by (intros ->; rewrite Harr in Ha; discriminate).
  assert (a ∉ addrs) as Hnotin.
  { intros Hin. apply list_elem_of_lookup in Hin as [i Hi].
    destruct (Forall2_lookup_l _ _ _ _ _ Hall Hi) as (q & _ & Hq). congruence. }
  assert (h !! a = None) as Hha by (rewrite <- Hframe; done).
  split_and!.
  - done.
  - by rewrite lookup_insert_eq.
  - apply Forall2_app.
    + eapply Forall2_impl; [exact Hall|]. intros x q Hx. simpl in Hx.
      rewrite lookup_insert_ne; [|intros <-; rewrite Harr in Hx; discriminate].
      rewrite lookup_insert_ne; [done|intros <-; congruence].
    + constructor; [|constructor].
      rewrite lookup_insert_ne; [|done]. by rewrite lookup_insert_eq.
  - apply Forall_app. split; [done|]. by constructor.
  - apply NoDup_app. split_and!; [done| |apply NoDup_singleton].
    intros x Hx Hx'. apply list_elem_of_singleton in Hx' as ->. done.
  - intros x Hx1 Hx2. rewrite not_elem_of_app in Hx2. destruct Hx2 as [Hx2 Hx3].
    rewrite list_elem_of_singleton in Hx3.
    rewrite lookup_insert_ne; [|done]. rewrite lookup_insert_ne; [|done].
    by apply Hframe.
Qed.


(** The loop, run on the paths that are left: it binds them in order,
    stops at the first fetch that fails, and leaves in the array exactly
    the handles bound so far. *)
Lemma array_from_variant_loop_exact v failure c h arr ps :
  ∀ done addrs s,
  extends h arr v addrs done (heap s) →
  ∃ s' addrs',
    let r := fetch_all v c ps (world s) in
    array_from_variant_loop v failure (length ps) (length done)
      (GVArray (GVObjectPath <$> (done ++ ps)%list)) arr c s
    = Some (wrap_failure failure <$> r.1.2, s') ∧
    extends h arr v (addrs ++ addrs') (done ++ take r.1.1 ps) (heap s') ∧
    world s' = r.2 ∧
    remote_calls s'
    = remote_calls s
      ++ set_object_paths v (take (r.1.1 + match r.1.2 with Some _ => 1 | None => 0 end) ps) ∧
    cd_client_object s' = cd_client_object s ∧
    emissions s' = emissions s.
Proof.
  induction ps as [|p ps IH]; intros done addrs s Hext.
  - exists s, []. simpl. rewrite !app_nil_r. done.
  - simpl.
    assert ((GVObjectPath <$> (done ++ p :: ps)%list) !! length done
            = Some (GVObjectPath p)) as Hchild.
    { rewrite list_lookup_fmap, list_lookup_middle; done. }
    unfold bind at 1. unfold g_variant_get_child_o, g_variant_get_child_value.
    simpl. unfold bind at 1. rewrite Hchild. simpl.
    unfold bind at 1. simpl. unfold bind at 1. simpl.
    set (s1 := record_message LOG_DEBUG p s).
    set (a := fresh (dom (heap s))).
    assert (heap s !! a = None) as Ha by apply fresh_heap.
    unfold bind at 1, cd_handle_set_object_path_sync. simpl.
    rewrite lookup_insert_eq.
    destruct (object_fetch (world s) v p c) as [[e|] w] eqn:Hfetch; simpl.
    + (* the fetch fails: the handle is released *)
      unfold bind at 1, g_object_unref. simpl. rewrite lookup_insert_eq. simpl.
      exists (set_heap (heap s)
                (set_world w (record_call (SetObjectPath v p) s1))), [].
      split_and!; simpl; try done.
      * unfold cd_handle_finalize, modify, ret. simpl.
        rewrite delete_insert_eq, delete_id; done.
      * rewrite !app_nil_r. done.
    + (* the fetch succeeds: the handle joins the array *)
      pose proof Hext as (Hfree & Harr & _).
      assert (a ≠ arr) as Hne by (intros Heq; rewrite Heq, Harr in Ha; discriminate).
      unfold bind at 1, g_ptr_array_add. simpl.
      rewrite insert_insert_eq. rewrite lookup_insert_ne; [|done].
      rewrite Harr. simpl.
      match goal with
      | |- ∃ _ _, array_from_variant_loop _ _ _ _ _ _ _ ?x = _ ∧ _ =>
          set (s2 := x)
      end.
      assert (extends h arr v (addrs ++ [a]) (done ++ [p]) (heap s2)) as Hext2.
      { subst s2. simpl. apply extends_snoc; done. }
      destruct (IH (done ++ [p]) (addrs ++ [a]) s2 Hext2)
        as (s' & addrs' & Hrun & Hext' & Hw & Hcalls & Hobj & Hem).
      rewrite length_app in Hrun. simpl in Hrun.
      rewrite Nat.add_1_r, <- app_assoc in Hrun. simpl in Hrun.
      exists s', (a :: addrs').
      subst s2. simpl in *.
      split_and!; try done.
      * rewrite <- !app_assoc in Hext'. exact Hext'.
      * rewrite Hcalls. rewrite <- app_assoc. done.
Qed.


Lemma fetch_all_bound v c paths w :
  (fetch_all v c paths w).1.1 ≤ length paths.
Proof.
  revert w. induction paths as [|p paths IH]; intros w; simpl; [done|].
  destruct (object_fetch w v p c) as [[e|] w']; simpl; [lia|].
  specialize (IH w'). lia.
Qed.

Lemma fetch_all_complete v c paths w :
  (fetch_all v c paths w).1.2 = None →
  (fetch_all v c paths w).1.1 = length paths.
Proof.
  revert w. induction paths as [|p paths IH]; intros w; simpl; [done|].
  destruct (object_fetch w v p c) as [[e|] w']; simpl; [done|].
  intros E. by rewrite IH.
Qed.

Lemma fetch_all_failure v c paths w e :
  (fetch_all v c paths w).1.2 = Some e →
  (fetch_all v c paths w).1.1 < length paths.
Proof.
  revert w. induction paths as [|p paths IH]; intros w; simpl; [done|].
  destruct (object_fetch w v p c) as [[e'|] w']; simpl; [lia|].
  intros E. specialize (IH _ E). lia.
Qed.

Lemma g_object_unref_handle a v p s :
  heap s !! a = Some (handle_block v p) →
  g_object_unref a s = Some (tt, set_heap (delete a (heap s)) s).
Proof. intros Ha. unfold g_object_unref. by rewrite Ha. Qed.

(** Releasing the elements of an array of handles held once frees each
    of them. *)
Lemma foreach_unref_handles v addrs :
  ∀ paths s,
  NoDup addrs →
  Forall2 (λ a p, heap s !! a = Some (handle_block v p)) addrs paths →
  ∃ h', foreach g_object_unref addrs s = Some (tt, set_heap h' s) ∧
        ∀ x, h' !! x = if decide (x ∈ addrs) then None else heap s !! x.
Proof.
  induction addrs as [|a addrs IH]; intros paths s Hnd Hall.
  - exists (heap s). split; [by destruct s|].
    intros x. case_decide as Hx; [|done]. by apply elem_of_nil in Hx.
  - apply Forall2_cons_inv_l in Hall as (p & paths' & Ha & Hall & ->).
    apply NoDup_cons in Hnd as [Hnotin Hnd].
    simpl. erewrite bind_Some by (by eapply g_object_unref_handle).
    destruct (IH paths' (set_heap (delete a (heap s)) s) Hnd) as (h' & Hrun & Hh').
    { apply Forall2_same_length_lookup. split; [by eapply Forall2_length|].
      intros i x q Hi Hq. simpl.
      rewrite lookup_delete_ne;
        [exact (Forall2_lookup_lr _ _ _ _ _ _ Hall Hi Hq)|].
      intros <-. apply Hnotin. by eapply list_elem_of_lookup_2. }
    exists h'. split; [by rewrite Hrun|].
    intros x. rewrite Hh'. simpl.
    destruct (decide (x = a)) as [->|Hne].
    + rewrite lookup_delete_eq.
      rewrite (decide_True (P := a ∈ a :: addrs)) by apply list_elem_of_here.
      by case_decide.
    + rewrite lookup_delete_ne by done.
      destruct (decide (x ∈ addrs)) as [Hi|Hi],
               (decide (x ∈ a :: addrs)) as [Hj|Hj]; try done.
      * exfalso. apply Hj. by apply list_elem_of_further.
      * exfalso. apply elem_of_cons in Hj as [Hj|Hj]; done.
Qed.


(** The whole pass: either every fetch succeeds and the caller gets the
    array and its handles, or one fails and the heap is as before. *)
Lemma array_from_variant_exact v failure c paths s :
  ∃ s',
    let r := fetch_all v c paths (world s) in
    world s' = r.2 ∧
    remote_calls s'
    = remote_calls s
      ++ set_object_paths v
           (take (r.1.1 + match r.1.2 with Some _ => 1 | None => 0 end) paths) ∧
    cd_client_object s' = cd_client_object s ∧
    emissions s' = emissions s ∧
    match r.1.2 with
    | Some e =>
        array_from_variant v failure (paths_reply paths) c s
        = Some ((None, Some (wrap_failure failure e)), s') ∧
        heap s' = heap s
    | None =>
        ∃ arr addrs,
          array_from_variant v failure (paths_reply paths) c s
          = Some ((Some arr, None), s') ∧
          extends (heap s) arr v addrs paths (heap s')
    end.
Proof.
  set (arr := fresh (dom (heap s))).
  assert (heap s !! arr = None) as Harr by apply fresh_heap.
  set (s0 := set_heap (<[arr := array_block []]> (heap s)) s).
  assert (extends (heap s) arr v [] [] (heap s0)) as Hext.
  { subst s0. simpl. split_and!; try done.
    - by rewrite lookup_insert_eq.
    - apply NoDup_nil_2.
    - intros a Ha _. by rewrite lookup_insert_ne. }
  destruct (array_from_variant_loop_exact v failure c (heap s) arr paths
              [] [] s0 Hext)
    as (s1 & addrs & Hloop & Hext1 & Hw & Hcalls & Hobj & Hem).
  simpl in Hloop, Hext1, Hw, Hcalls, Hobj, Hem.
  assert (array_from_variant v failure (paths_reply paths) c s
          = (let error := wrap_failure failure
                          <$> (fetch_all v c paths (world s)).1.2 in
             array <- match error with
                      | None => a <- g_ptr_array_ref arr ;; ret (Some a)
                      | Some _ => ret None
                      end ;;
             g_ptr_array_unref arr ;;; ret (array, error)) s1) as Hrun.
  { unfold array_from_variant, g_ptr_array_new_with_free_func.
    unfold bind at 1, g_object_new. simpl. fold arr. fold (array_block []).
    fold s0.
    unfold bind at 1, g_variant_get_child_value. simpl.
    unfold bind at 1, g_variant_iter_init. simpl.
    rewrite length_fmap.
    erewrite bind_Some by exact Hloop. done. }
  rewrite Hrun. clear Hrun Hloop.
  pose proof Hext1 as (_ & Harr1 & Hall1 & Hnew1 & Hnd1 & Hframe1).
  pose proof (fetch_all_complete v c paths (world s)) as Hk.
  destruct (fetch_all v c paths (world s)) as [[k oe] w].
  simpl in *. destruct oe as [e|]; simpl.
  - (* a fetch failed: the array and its handles are released *)
    destruct (foreach_unref_handles v addrs (take k paths) s1 Hnd1 Hall1)
      as (h' & Hfree & Hh').
    unfold bind at 1. simpl. unfold bind at 1.
    unfold g_ptr_array_unref. rewrite Harr1. simpl.
    erewrite bind_Some by exact Hfree. simpl.
    eexists. split_and!. 5: reflexivity. all: simpl; try done.
    apply map_eq. intros x.
    destruct (decide (x = arr)) as [->|Hne].
    + by rewrite lookup_delete_eq.
    + rewrite lookup_delete_ne by done. rewrite Hh'.
      case_decide as Hin.
      * symmetry. rewrite Forall_forall in Hnew1. by apply Hnew1.
      * by apply Hframe1.
  - (* every fetch succeeded: the caller gets the one reference *)
    specialize (Hk eq_refl). subst k.
    rewrite Nat.add_0_r, firstn_all in *.
    unfold bind at 1. unfold bind at 1. unfold g_ptr_array_ref.
    rewrite Harr1. simpl.
    unfold bind at 1, g_ptr_array_unref. simpl. rewrite lookup_insert_eq. simpl.
    rewrite insert_insert_eq.
    eexists. split_and!. 5: exists arr, addrs; split; [reflexivity|].
    all: simpl; try done.
    rewrite insert_id by done. done.
Qed.


Lemma list_call_unfold l client c :
  list_call l client c
  = list_sync (list_variant l) (list_failure l) client (list_method l)
              (list_parameters l) c.
Proof. by destruct l. Qed.

Lemma with_proxy_connected {A} s client px (val : A) k :
  connected_with s client px → with_proxy client val k s = k px s.
Proof.
  intros (priv & Hpriv & Hpx). unfold with_proxy, bind, get_state.
  by rewrite Hpriv, Hpx.
Qed.

Lemma with_proxy_unconnected {A} s client (val : A) k :
  unconnected s client →
  with_proxy client val k s
  = Some (val, record_message LOG_CRITICAL
                 "assertion 'client->priv->proxy != NULL' failed" s).
Proof.
  intros (priv & Hpriv & Hpx). unfold with_proxy, bind, get_state.
  by rewrite Hpriv, Hpx.
Qed.

Lemma list_call_exact l s client px c paths w :
  connected_with s client px →
  proxy_call (world s) px (list_method l) (list_parameters l) c
  = (inl (paths_reply paths), w) →
  ∃ s',
    let r := fetch_all (list_variant l) c paths w in
    world s' = r.2 ∧
    remote_calls s'
    = remote_calls s
      ++ ProxyCall (list_method l) (list_parameters l)
         :: set_object_paths (list_variant l)
              (take (r.1.1 + match r.1.2 with Some _ => 1 | None => 0 end)
                    paths) ∧
    cd_client_object s' = cd_client_object s ∧
    emissions s' = emissions s ∧
    match r.1.2 with
    | Some e =>
        list_call l client c s
        = Some ((None, Some (wrap_failure (list_failure l) e)), s') ∧
        heap s' = heap s
    | None =>
        ∃ arr addrs,
          list_call l client c s = Some ((Some arr, None), s') ∧
          extends (heap s) arr (list_variant l) addrs paths (heap s')
    end.
Proof.
  intros Hconn Hcall.
  set (s0 := set_world w
               (record_call (ProxyCall (list_method l) (list_parameters l)) s)).
  assert (list_call l client c s
          = array_from_variant (list_variant l) (list_failure l)
                               (paths_reply paths) c s0) as ->.
  { rewrite list_call_unfold. unfold list_sync.
    rewrite (with_proxy_connected _ _ _ _ _ Hconn).
    unfold bind, g_dbus_proxy_call_sync. by rewrite Hcall. }
  destruct (array_from_variant_exact (list_variant l) (list_failure l) c
              paths s0) as (s' & Hw & Hcalls & Hobj & Hem & Hres).
  exists s'. subst s0. simpl in *.
  split_and!; try done.
  rewrite Hcalls. by rewrite <- app_assoc.
Qed.

(** ** The list calls *)

(** C1: for each of the three list calls on a connected client, when the
    reply lists [paths] and the fetch of the k-th path is the first to
    fail with error [e], the call returns NULL with one error, of the
    client's domain and code, whose message is the call's "Failed to set
    ... object path: " followed by the message of [e]; the heap is the one
    before the call, so the array and the k handles bound before the
    failure have all been released, and no array is returned. *)
Theorem list_call_bind_failure l s client px c paths w k e w' :
  connected_with s client px →
  proxy_call (world s) px (list_method l) (list_parameters l) c
  = (inl (paths_reply paths), w) →
  fetch_all (list_variant l) c paths w = (k, Some e, w') →
  ∃ s',
    list_call l client c s
    = Some ((None,
             Some (mkGError CD_CLIENT_ERROR CD_CLIENT_ERROR_FAILED
                            (list_failure l ++ message e)%string)), s') ∧
    heap s' = heap s ∧
    remote_calls s'
    = remote_calls s
      ++ ProxyCall (list_method l) (list_parameters l)
         :: set_object_paths (list_variant l) (take (S k) paths).
Proof.
  intros Hconn Hcall Hfetch.
  destruct (list_call_exact l s client px c paths w Hconn Hcall)
    as (s' & _ & Hcalls & _ & _ & Hres).
  rewrite Hfetch in Hcalls, Hres. simpl in Hcalls, Hres.
  destruct Hres as [Hrun Hheap].
  exists s'. split_and!; [done|done|].
  rewrite Hcalls. by rewrite Nat.add_1_r.
Qed.

(** C2: when [cd_client_get_devices_sync] on a connected client receives a
    reply listing [paths] and returns an array, the array has as many
    elements as the reply has paths, the i-th element is a device handle
    bound to the i-th path, the elements are distinct objects, and no
    error is set. *)
Theorem get_devices_success s client px c paths w arr err s' :
  connected_with s client px →
  proxy_call (world s) px "GetDevices" None c = (inl (paths_reply paths), w) →
  cd_client_get_devices_sync client c s = Some ((Some arr, err), s') →
  ∃ addrs,
    heap s' !! arr = Some (array_block addrs) ∧
    length addrs = length paths ∧
    Forall2 (λ a p, heap s' !! a = Some (handle_block Device p)) addrs paths ∧
    NoDup addrs ∧
    err = None.
Proof.
  intros Hconn Hcall Hrun.
  destruct (list_call_exact ListDevices s client px c paths w Hconn Hcall)
    as (s1 & _ & _ & _ & _ & Hres).
  simpl in Hres.
  destruct (fetch_all Device c paths w) as [[k [e|]] w1]; simpl in Hres.
  - destruct Hres as [Hrun' _]. rewrite Hrun in Hrun'. discriminate.
  - destruct Hres as (arr' & addrs & Hrun' & Hext).
    rewrite Hrun in Hrun'. injection Hrun' as -> -> ->.
    destruct Hext as (_ & Harr & Hall & _ & Hnd & _).
    exists addrs. split_and!; try done. by eapply Forall2_length.
Qed.

(** When every fetch succeeds the list call does return an array. *)
Lemma list_call_returns l s client px c paths w k w' :
  connected_with s client px →
  proxy_call (world s) px (list_method l) (list_parameters l) c
  = (inl (paths_reply paths), w) →
  fetch_all (list_variant l) c paths w = (k, None, w') →
  ∃ arr s', list_call l client c s = Some ((Some arr, None), s').
Proof.
  intros Hconn Hcall Hfetch.
  destruct (list_call_exact l s client px c paths w Hconn Hcall)
    as (s' & _ & _ & _ & _ & Hres).
  rewrite Hfetch in Hres. simpl in Hres.
  destruct Hres as (arr & addrs & Hrun & _). by exists arr, s'.
Qed.

(** ** Calls on a client without a transport *)

Lemma run_unconnected op s client c priv :
  client_priv (heap s) client = Some priv →
  proxy priv = None →
  run op client c s
  = match op with
    | GetDaemonVersion => Some ((String (daemon_version priv), None), s)
    | _ =>
        Some ((failure_value op, None),
              record_message LOG_CRITICAL
                "assertion 'client->priv->proxy != NULL' failed" s)
    end.
Proof.
  intros Hpriv Hpx.
  assert (unconnected s client) as Hun by (by exists priv).
  destruct op; simpl;
    unfold with_pointer, with_boolean,
      cd_client_get_devices_sync, cd_client_get_devices_by_kind_sync,
      cd_client_get_profiles_sync, cd_client_create_device_sync,
      cd_client_create_profile_sync, cd_client_delete_device_sync,
      cd_client_delete_profile_sync, cd_client_find_device_sync,
      cd_client_find_profile_sync, list_sync, object_sync, delete_sync;
    try (unfold bind at 1; rewrite (with_proxy_unconnected _ _ _ _ Hun); done).
  unfold cd_client_get_daemon_version, bind, get_state. by rewrite Hpriv.
Qed.

(** C3, as the code has it: on a client that has no transport, every call
    other than connect and the version getter returns its failure value
    (NULL or FALSE) and sets no error, and the version getter returns
    the cached version; no call reaches the daemon and the heap is
    unchanged. *)
Theorem unconnected_call_returns_failure_value op s client c priv :
  client_priv (heap s) client = Some priv →
  proxy priv = None →
  ∃ s',
    run op client c s
    = Some ((match op with
             | GetDaemonVersion => String (daemon_version priv)
             | _ => failure_value op
             end, None), s') ∧
    remote_calls s' = remote_calls s ∧
    world s' = world s ∧
    heap s' = heap s.
Proof.
  intros Hpriv Hpx. rewrite (run_unconnected op s client c priv Hpriv Hpx).
  destruct op; eexists; (split; [reflexivity|done]).
Qed.

(** ** Connecting *)

(** C4, as the code has it: connect on a client that already has a
    transport returns FALSE and sets no error; nothing is asked of the
    daemon, the heap is unchanged, and the client still has the transport
    it had. *)
Theorem connect_twice_returns_false s client px c :
  connected_with s client px →
  ∃ s',
    cd_client_connect_sync client c s = Some ((false, None), s') ∧
    heap s' = heap s ∧
    world s' = world s ∧
    remote_calls s' = remote_calls s ∧
    connected_with s' client px.
Proof.
  intros (priv & Hpriv & Hpx).
  unfold cd_client_connect_sync, bind, get_state. rewrite Hpriv, Hpx.
  eexists. split_and!; [reflexivity|done..|by exists priv].
Qed.

(** What connect does on a client without a transport when the bus
    hands out a proxy. *)
Lemma connect_sync_connects s client c rc wp priv px w :
  heap s !! client = Some (mkBlock rc wp (PClient priv)) →
  proxy priv = None →
  proxy_new_for_bus (world s) COLORD_DBUS_SERVICE COLORD_DBUS_PATH
                    COLORD_DBUS_INTERFACE c = (inl px, w) →
  ∃ s',
    cd_client_connect_sync client c s = Some ((true, None), s') ∧
    client_priv (heap s') client
    = Some (mkPriv
              (Some (g_signal_connect px "g-signal"
                       G_CALLBACK_cd_client_dbus_signal_cb client))
              (match cached_properties px !! "Title" with
               | Some v => g_variant_dup_string v
               | None => daemon_version priv
               end)).
Proof.
  intros Hblock Hpx Hnew.
  unfold cd_client_connect_sync, bind, get_state, client_priv.
  rewrite Hblock. simpl. rewrite Hpx.
  unfold g_dbus_proxy_new_for_bus_sync. rewrite Hnew.
  unfold set_client_priv. simpl. rewrite Hblock. simpl.
  eexists. split; [reflexivity|]. simpl. by rewrite lookup_insert_eq.
Qed.

(** C9: when connect gets its proxy and the cached property it reads for
    the version (the "version"/title property of the root object, named
    "Title" in the call) is absent, connect still returns TRUE with no
    error, and the cached version is left as it was, unset on a client
    that has not connected before; the getter then returns that value
    and leaves the process as it is, so it asks nothing of the daemon. *)
Theorem connect_tolerates_absent_version s client c rc wp priv px w :
  heap s !! client = Some (mkBlock rc wp (PClient priv)) →
  proxy priv = None →
  daemon_version priv = None →
  proxy_new_for_bus (world s) COLORD_DBUS_SERVICE COLORD_DBUS_PATH
                    COLORD_DBUS_INTERFACE c = (inl px, w) →
  cached_properties px !! "Title" = None →
  ∃ s',
    cd_client_connect_sync client c s = Some ((true, None), s') ∧
    client_priv (heap s') client
    = Some (mkPriv
              (Some (g_signal_connect px "g-signal"
                       G_CALLBACK_cd_client_dbus_signal_cb client))
              None) ∧
    remote_calls s'
    = remote_calls s
      ++ [ProxyNew COLORD_DBUS_SERVICE COLORD_DBUS_PATH COLORD_DBUS_INTERFACE] ∧
    cd_client_get_daemon_version client s' = Some (None, s').
Proof.
  intros Hblock Hpx Hversion Hnew Htitle.
  unfold cd_client_connect_sync at 1. unfold bind, get_state, client_priv.
  rewrite Hblock. simpl. rewrite Hpx.
  unfold g_dbus_proxy_new_for_bus_sync. rewrite Hnew.
  unfold g_dbus_proxy_get_cached_property. rewrite Htitle, Hversion.
  unfold set_client_priv. simpl. rewrite Hblock. simpl.
  eexists. split; [reflexivity|]. simpl.
  split_and!.
  - by rewrite lookup_insert_eq.
  - done.
  - unfold cd_client_get_daemon_version, bind, get_state, client_priv. simpl.
    by rewrite lookup_insert_eq.
Qed.

(** ** Deleting *)

(** C6: on a connected client, a delete call returns TRUE exactly when
    the daemon replies; when the daemon answers with an error the call
    returns FALSE with an error of the client's domain and code whose
    message carries the daemon's; in both cases the call returns, the
    heap is unchanged and the client is still connected. *)
Theorem delete_call_reports_the_reply d s client px c id :
  connected_with s client px →
  let reply :=
    proxy_call (world s) px (delete_method d) (Some (g_variant_new_s id)) c in
  ∃ s',
    delete_call d client id c s
    = Some (match reply.1 with
            | inl _ => (true, None)
            | inr e =>
                (false,
                 Some (mkGError CD_CLIENT_ERROR CD_CLIENT_ERROR_FAILED
                         ("Failed to " ++ delete_method d ++ ": "
                          ++ message e)%string))
            end, s') ∧
    heap s' = heap s ∧
    connected_with s' client px ∧
    remote_calls s'
    = remote_calls s
      ++ [ProxyCall (delete_method d) (Some (g_variant_new_s id))].
Proof.
  intros Hconn reply. subst reply.
  assert (delete_call d client id c
          = delete_sync client (delete_method d) id c) as ->
    by (by destruct d).
  unfold delete_sync. rewrite (with_proxy_connected _ _ _ _ _ Hconn).
  unfold bind, g_dbus_proxy_call_sync.
  destruct (proxy_call (world s) px (delete_method d)
              (Some (g_variant_new_s id)) c) as [[reply|e] w]; simpl;
    (eexists; split_and!; [reflexivity|done| |done]);
    destruct Hconn as (priv & Hpriv & Hpx); by exists priv.
Qed.

(** ** Signals *)

(** C7, at the frame the claim is about: a "DeviceAdded" frame carrying
    one object path leaves the whole process as it was; in particular the
    client emits nothing to its observers. *)
Theorem device_added_emits_nothing px sender p client s :
  ∃ s',
    cd_client_dbus_signal_cb px sender "DeviceAdded"
                             (GVTuple [GVObjectPath p]) client s
    = Some (tt, s') ∧
    emissions s' = emissions s ∧
    s' = s.
Proof. by exists s. Qed.

(** X17: a frame with a name the callback does not know is logged and
    emits nothing. *)
Lemma unknown_signal_is_logged px sender name parameters client s :
  name ∉ ["Changed"; "DeviceAdded"; "DeviceRemoved"; "ProfileAdded";
          "ProfileRemoved"] →
  cd_client_dbus_signal_cb px sender name parameters client s
  = Some (tt, record_message LOG_WARNING
                ("unhandled signal '" ++ name ++ "'")%string s).
Proof.
  intros Hname. unfold cd_client_dbus_signal_cb.
  repeat (case_decide as Heq;
          [exfalso; apply Hname; rewrite Heq; set_solver|]; clear Heq).
  done.
Qed.

(** ** The singleton *)

Lemma clear_weak_pointers_resets s wp :
  Loc_cd_client_object ∈ wp →
  cd_client_object (foldr clear_weak_pointer s wp) = None ∧
  heap (foldr clear_weak_pointer s wp) = heap s.
Proof.
  induction wp as [|[] wp IH]; intros Hin.
  - by apply elem_of_nil in Hin.
  - simpl. split; [done|].
    clear. induction wp as [|[] wp IH]; [done|]. simpl. exact IH.
Qed.

Lemma release_client n :
  ∀ s a wp priv,
  heap s !! a = Some (mkBlock (S n) wp (PClient priv)) →
  Loc_cd_client_object ∈ wp →
  ∃ s', release (S n) a s = Some (tt, s') ∧
        heap s' = delete a (heap s) ∧
        cd_client_object s' = None.
Proof.
  induction n as [|n IH]; intros s a wp priv Hblock Hwp.
  - simpl. unfold bind, g_object_unref. rewrite Hblock. simpl.
    destruct (clear_weak_pointers_resets s wp Hwp) as [Hobj Hheap].
    eexists. split_and!; [reflexivity|..]; simpl; [by rewrite Hheap|done].
  - change (release (S (S n)) a) with (g_object_unref a ;;; release (S n) a).
    unfold bind at 1, g_object_unref at 1. rewrite Hblock. simpl ref_count.
    cbv iota. simpl weak_pointers. simpl payload.
    destruct (IH (set_heap (<[a := mkBlock (S n) wp (PClient priv)]> (heap s)) s)
                a wp priv) as (s' & Hrun & Hheap & Hobj).
    { simpl. by rewrite lookup_insert_eq. }
    { done. }
    exists s'. split_and!; [done| |done].
    rewrite Hheap. simpl. by rewrite delete_insert_eq.
Qed.

(** C8: while the static pointer names a live client, [cd_client_new]
    returns that same instance, with one more reference and its private
    data untouched; once every reference has been released the instance
    is gone and the static pointer is NULL, and the next [cd_client_new]
    makes a new instance at an address that was not live, with one
    reference, no transport and no cached version. *)
Theorem cd_client_new_is_a_singleton s a n wp priv :
  cd_client_object s = Some a →
  heap s !! a = Some (mkBlock (S n) wp (PClient priv)) →
  Loc_cd_client_object ∈ wp →
  (∃ s',
     cd_client_new s = Some (a, s') ∧
     heap s' = <[a := mkBlock (S (S n)) wp (PClient priv)]> (heap s) ∧
     cd_client_object s' = Some a) ∧
  (∃ s1,
     release (S n) a s = Some (tt, s1) ∧
     heap s1 = delete a (heap s) ∧
     cd_client_object s1 = None ∧
     ∃ a' s2,
       cd_client_new s1 = Some (a', s2) ∧
       heap s1 !! a' = None ∧
       heap s2
       = <[a' := mkBlock 1 [Loc_cd_client_object] (PClient (mkPriv None None))]>
           (heap s1) ∧
       cd_client_object s2 = Some a').
Proof.
  intros Hobj Hblock Hwp. split.
  - unfold cd_client_new, bind, get_state, g_object_ref.
    rewrite Hobj. simpl. rewrite Hblock. simpl.
    eexists. split_and!; [reflexivity|done|done].
  - destruct (release_client n s a wp priv Hblock Hwp)
      as (s1 & Hrun & Hheap & Hnone).
    exists s1. split_and!; try done.
    exists (fresh (dom (heap s1))).
    unfold cd_client_new, bind, get_state.
    rewrite Hnone. unfold g_object_new, modify, g_object_add_weak_pointer.
    simpl. rewrite lookup_insert_eq. simpl.
    eexists. split_and!; [reflexivity|apply fresh_heap| |done].
    simpl. by rewrite insert_insert_eq.
Qed.

(** ** One handle from one reply *)

Lemma g_variant_get_o_run p s :
  g_variant_get_o (GVTuple [GVObjectPath p]) s = Some (p, s).
Proof. done. Qed.

Lemma cd_handle_new_run v s :
  cd_handle_new v s
  = Some (fresh (dom (heap s)),
          set_heap (<[fresh (dom (heap s))
                      := mkBlock 1 [] (PHandle (mkHandle v None false))]>
                      (heap s)) s).
Proof. done. Qed.

Lemma cd_handle_set_object_path_sync_run v h p c s rc wp hd :
  heap s !! h = Some (mkBlock rc wp (PHandle hd)) →
  cd_handle_set_object_path_sync v h p c s
  = let r := object_fetch (world s) v p c in
    let s1 := set_world r.2 (record_call (SetObjectPath v p) s) in
    match r.1 with
    | Some e => Some (Some e, s1)
    | None =>
        Some (None,
              set_heap (<[h := mkBlock rc wp
                                 (PHandle (mkHandle (variant hd) (Some p) true))]>
                          (heap s)) s1)
    end.
Proof.
  intros Hh. unfold cd_handle_set_object_path_sync. rewrite Hh.
  by destruct (object_fetch (world s) v p c) as [[e|] w].
Qed.

Lemma g_object_unref_last a s hd :
  heap s !! a = Some (mkBlock 1 [] (PHandle hd)) →
  g_object_unref a s = Some (tt, set_heap (delete a (heap s)) s).
Proof. intros Ha. unfold g_object_unref. by rewrite Ha. Qed.

Lemma object_sync_exact v s client px method parameters c :
  connected_with s client px →
  let call := ProxyCall method (Some parameters) in
  (∀ e w,
     proxy_call (world s) px method (Some parameters) c = (inr e, w) →
     object_sync v client method parameters c s
     = Some ((None, Some (failed_to method e)),
             set_world w (record_call call s))) ∧
  (∀ p w e w',
     proxy_call (world s) px method (Some parameters) c
     = (inl (GVTuple [GVObjectPath p]), w) →
     object_fetch w v p c = (Some e, w') →
     ∃ s',
       object_sync v client method parameters c s
       = Some ((None, Some e), s') ∧
       heap s' = heap s ∧
       remote_calls s' = remote_calls s ++ [call; SetObjectPath v p]) ∧
  (∀ p w w',
     proxy_call (world s) px method (Some parameters) c
     = (inl (GVTuple [GVObjectPath p]), w) →
     object_fetch w v p c = (None, w') →
     ∃ object s',
       object_sync v client method parameters c s
       = Some ((Some object, None), s') ∧
       heap s !! object = None ∧
       heap s' = <[object := handle_block v p]> (heap s) ∧
       remote_calls s' = remote_calls s ++ [call; SetObjectPath v p]).
Proof.
  intros Hconn call.
  assert (∀ r w,
            proxy_call (world s) px method (Some parameters) c = (r, w) →
            object_sync v client method parameters c s
            = match r with
              | inl result =>
                  object_path <- g_variant_get_o result ;;
                  object_tmp <- cd_handle_new v ;;
                  ok <- cd_handle_set_object_path_sync v object_tmp
                          object_path c ;;
                  match ok with
                  | Some error =>
                      g_object_unref object_tmp ;;; ret (None, Some error)
                  | None =>
                      g_object_ref object_tmp ;;;
                      g_object_unref object_tmp ;;;
                      ret (Some object_tmp, None)
                  end
              | inr error_local =>
                  ret (None, Some (failed_to method error_local))
              end (set_world w (record_call call s))) as Hstart.
  { intros r w Hcall. unfold object_sync.
    rewrite (with_proxy_connected _ _ _ _ _ Hconn).
    unfold bind at 1, g_dbus_proxy_call_sync. by rewrite Hcall. }
  set (object := fresh (dom (heap s))).
  assert (heap s !! object = None) as Hfresh by apply fresh_heap.
  split_and!.
  - intros e w Hcall. by rewrite (Hstart _ _ Hcall).
  - intros p w e w' Hcall Hfetch. rewrite (Hstart _ _ Hcall).
    rewrite (bind_Some _ _ _ _ _ (g_variant_get_o_run p _)). cbv beta.
    rewrite (bind_Some _ _ _ _ _ (cd_handle_new_run v _)). cbv beta.
    simpl heap. fold object.
    erewrite bind_Some; cycle 1.
    { rewrite (cd_handle_set_object_path_sync_run v object p c _ 1 []
                 (mkHandle v None false))
        by (simpl; apply lookup_insert_eq).
      simpl. rewrite Hfetch. reflexivity. }
    cbv beta iota.
    erewrite bind_Some; cycle 1.
    { eapply g_object_unref_last. simpl. apply lookup_insert_eq. }
    eexists. split_and!; [reflexivity|..]; simpl.
    + by rewrite delete_insert_eq, delete_id.
    + by rewrite <- app_assoc.
  - intros p w w' Hcall Hfetch. rewrite (Hstart _ _ Hcall).
    rewrite (bind_Some _ _ _ _ _ (g_variant_get_o_run p _)). cbv beta.
    rewrite (bind_Some _ _ _ _ _ (cd_handle_new_run v _)). cbv beta.
    simpl heap. fold object.
    erewrite bind_Some; cycle 1.
    { rewrite (cd_handle_set_object_path_sync_run v object p c _ 1 []
                 (mkHandle v None false))
        by (simpl; apply lookup_insert_eq).
      simpl. rewrite Hfetch. reflexivity. }
    cbv beta iota.
    erewrite bind_Some; cycle 1.
    { unfold g_object_ref. simpl. rewrite lookup_insert_eq. reflexivity. }
    cbv beta.
    erewrite bind_Some; cycle 1.
    { unfold g_object_unref. simpl. rewrite lookup_insert_eq. reflexivity. }
    eexists _, _. split_and!; [reflexivity|done|..]; simpl.
    + by rewrite !insert_insert_eq.
    + by rewrite <- app_assoc.
Qed.

(** C5, as the code has it: on a connected client [create_device] issues
    the one call "CreateDevice" with [(id, options)]; when the daemon
    answers with an error it returns NULL with an error of the client's
    domain and code; when the reply is [(path)] it binds a new device to
    [path] and returns it bound, with one reference, and when that bind
    fails it returns NULL, releases the device and hands on the error of
    the bind as it is. *)
Theorem create_device_outcomes s client px c id options :
  connected_with s client px →
  let parameters := g_variant_new_su id options in
  let call := ProxyCall "CreateDevice" (Some parameters) in
  (∀ e w,
     proxy_call (world s) px "CreateDevice" (Some parameters) c = (inr e, w) →
     ∃ s',
       cd_client_create_device_sync client id options c s
       = Some ((None,
                Some (mkGError CD_CLIENT_ERROR CD_CLIENT_ERROR_FAILED
                        ("Failed to CreateDevice: " ++ message e)%string)),
               s') ∧
       heap s' = heap s ∧
       remote_calls s' = remote_calls s ++ [call]) ∧
  (∀ p w e w',
     proxy_call (world s) px "CreateDevice" (Some parameters) c
     = (inl (GVTuple [GVObjectPath p]), w) →
     object_fetch w Device p c = (Some e, w') →
     ∃ s',
       cd_client_create_device_sync client id options c s
       = Some ((None, Some e), s') ∧
       heap s' = heap s ∧
       remote_calls s' = remote_calls s ++ [call; SetObjectPath Device p]) ∧
  (∀ p w w',
     proxy_call (world s) px "CreateDevice" (Some parameters) c
     = (inl (GVTuple [GVObjectPath p]), w) →
     object_fetch w Device p c = (None, w') →
     ∃ device s',
       cd_client_create_device_sync client id options c s
       = Some ((Some device, None), s') ∧
       heap s !! device = None ∧
       heap s' = <[device := handle_block Device p]> (heap s) ∧
       remote_calls s' = remote_calls s ++ [call; SetObjectPath Device p]).
Proof.
  intros Hconn parameters call.
  destruct (object_sync_exact Device s client px "CreateDevice" parameters c
              Hconn) as (Herr & Hbind & Hok).
  split_and!.
  - intros e w Hcall. eexists. split_and!; [by apply Herr|done|done].
  - exact Hbind.
  - exact Hok.
Qed.

(** ** What a call leaves alone *)

Lemma clear_weak_pointers_heap s wp :
  heap (foldr clear_weak_pointer s wp) = heap s.
Proof. induction wp as [|[] wp IH]; [done|]. simpl. exact IH. Qed.

Lemma g_object_unref_frame a x s u s' :
  a ≠ x →
  g_object_unref a s = Some (u, s') →
  heap s' !! x = heap s !! x.
Proof.
  intros Hne. unfold g_object_unref, cd_client_finalize, cd_handle_finalize,
    modify.
  destruct (heap s !! a) as [[[|[|n]] wp pl]|]; simpl; try discriminate;
    try (destruct pl; simpl; try discriminate; intros [= _ <-]; simpl;
         rewrite lookup_delete_ne by done;
         by rewrite clear_weak_pointers_heap).
  intros [= _ <-]. simpl. by rewrite lookup_insert_ne.
Qed.

Lemma foreach_unref_frame x l :
  ∀ s u s',
  x ∉ l →
  foreach g_object_unref l s = Some (u, s') →
  heap s' !! x = heap s !! x.
Proof.
  induction l as [|a l IH]; intros s u s' Hx Hrun.
  - by injection Hrun as _ <-.
  - apply not_elem_of_cons in Hx as [Hne Hx]. simpl in Hrun.
    apply bind_inv in Hrun as (u1 & s1 & Hfirst & Hrest).
    rewrite (IH _ _ _ Hx Hrest).
    eapply g_object_unref_frame; [|exact Hfirst]. done.
Qed.

Lemma g_ptr_array_unref_frame x b arr s u s' :
  apart x b arr s →
  g_ptr_array_unref arr s = Some (u, s') →
  heap s' !! x = Some b.
Proof.
  intros (Hx & Hne & Hpdata). unfold g_ptr_array_unref.
  destruct (heap s !! arr) as [[rc wp [|?|pdata f]]|] eqn:Harr;
    try discriminate.
  specialize (Hpdata _ _ _ _ eq_refl).
  assert (∀ m : M unit, (∀ s1 u1 s2, m s1 = Some (u1, s2) →
                           heap s2 !! x = heap s1 !! x) →
          (m ;;; modify (λ s0, set_heap (delete arr (heap s0)) s0)) s
          = Some (u, s') → heap s' !! x = Some b) as Hlast.
  { intros m Hm Hrun. apply bind_inv in Hrun as (u1 & s1 & Hm1 & Hdel).
    injection Hdel as _ <-. simpl. rewrite lookup_delete_ne by done.
    by rewrite (Hm _ _ _ Hm1). }
  destruct rc as [|[|n]].
  - apply Hlast. destruct f as [[]|]; intros s1 u1 s2.
    + by apply foreach_unref_frame.
    + by intros [= _ <-].
  - apply Hlast. destruct f as [[]|]; intros s1 u1 s2.
    + by apply foreach_unref_frame.
    + by intros [= _ <-].
  - intros [= _ <-]. simpl. by rewrite lookup_insert_ne.
Qed.

Lemma g_ptr_array_ref_apart x b arr s a s' :
  apart x b arr s →
  g_ptr_array_ref arr s = Some (a, s') →
  apart x b arr s'.
Proof.
  intros (Hx & Hne & Hpdata). unfold g_ptr_array_ref.
  destruct (heap s !! arr) as [[rc wp [|?|pdata f]]|] eqn:Harr;
    try discriminate.
  intros [= _ <-]. split_and!; simpl; [|done|].
  - by rewrite lookup_insert_ne.
  - intros rc' wp' pdata' f'. rewrite lookup_insert_eq. intros [= _ _ <- _].
    by apply (Hpdata _ _ _ _ eq_refl).
Qed.

Lemma array_from_variant_loop_apart v failure child arr c x b n :
  ∀ i s res s',
  apart x b arr s →
  array_from_variant_loop v failure n i child arr c s = Some (res, s') →
  apart x b arr s'.
Proof.
  induction n as [|n IH]; intros i s res s' Hap Hrun.
  - by injection Hrun as _ <-.
  - simpl in Hrun.
    apply bind_inv in Hrun as (p & s1 & Hchild & Hrun).
    assert (s1 = s) as ->.
    { unfold g_variant_get_child_o, g_variant_get_child_value in Hchild.
      apply bind_inv in Hchild as (ch & s2 & Hch & Hp).
      destruct (g_variant_children child) as [l|]; [|discriminate].
      destruct (l !! i); [|discriminate]. injection Hch as _ <-.
      by destruct ch; try discriminate; injection Hp as _ <-. }
    apply bind_inv in Hrun as (u & s2 & Hdebug & Hrun).
    injection Hdebug as _ <-.
    apply bind_inv in Hrun as (object & s3 & Hnew & Hrun).
    rewrite cd_handle_new_run in Hnew. injection Hnew as <- <-.
    simpl in Hrun.
    set (object := fresh (dom (heap s))) in *.
    assert (heap s !! object = None) as Hfresh by apply fresh_heap.
    destruct Hap as (Hx & Hne & Hpdata).
    assert (object ≠ x) as Hox by (intros Heq; rewrite Heq in Hfresh; congruence).
    apply bind_inv in Hrun as (ok & s4 & Hbind & Hrun).
    rewrite (cd_handle_set_object_path_sync_run v object p c _ 1 []
               (mkHandle v None false)) in Hbind
      by (simpl; apply lookup_insert_eq).
    simpl in Hbind.
    destruct (object_fetch (world s) v p c) as [[e|] w]; simpl in Hbind;
      injection Hbind as <- <-.
    + (* the bind failed: the handle is released *)
      apply bind_inv in Hrun as (u2 & s5 & Hunref & Hret).
      injection Hret as _ <-.
      erewrite g_object_unref_last in Hunref
        by (simpl; apply lookup_insert_eq).
      injection Hunref as _ <-. simpl.
      split_and!; simpl; rewrite ?delete_insert_eq, ?delete_id by done;
        done.
    + (* the handle joins the array *)
      apply bind_inv in Hrun as (u2 & s5 & Hadd & Hrun).
      eapply IH; [|exact Hrun].
      unfold g_ptr_array_add in Hadd. simpl in Hadd.
      rewrite insert_insert_eq in Hadd.
      destruct (decide (arr = object)) as [->|Hao].
      { rewrite lookup_insert_eq in Hadd. discriminate. }
      rewrite lookup_insert_ne in Hadd by done.
      destruct (heap s !! arr) as [[rc wp [|?|pdata f]]|] eqn:Harr;
        try discriminate.
      injection Hadd as _ <-. split_and!; simpl; [|done|].
      * rewrite lookup_insert_ne by done. by rewrite lookup_insert_ne.
      * intros rc' wp' pdata' f'. rewrite lookup_insert_eq.
        intros [= _ _ <- _]. apply not_elem_of_app. split.
        -- by apply (Hpdata _ _ _ _ eq_refl).
        -- rewrite list_elem_of_singleton. done.
Qed.

Lemma array_from_variant_frame v failure result c s r s' x :
  is_Some (heap s !! x) →
  array_from_variant v failure result c s = Some (r, s') →
  heap s' !! x = heap s !! x.
Proof.
  intros [b Hx] Hrun. rewrite Hx. unfold array_from_variant in Hrun.
  apply bind_inv in Hrun as (arr & s1 & Hnew & Hrun).
  injection Hnew as <- <-.
  set (arr := fresh (dom (heap s))) in *.
  assert (heap s !! arr = None) as Hfresh by apply fresh_heap.
  assert (arr ≠ x) as Hne by (intros Heq; rewrite Heq in Hfresh; congruence).
  apply bind_inv in Hrun as (child & s2 & Hchild & Hrun).
  assert (s2 = set_heap (<[arr := mkBlock 1 [] (PPtrArray []
                                   (Some Notify_g_object_unref))]> (heap s)) s)
    as ->.
  { unfold g_variant_get_child_value in Hchild.
    destruct (g_variant_children result) as [l|]; [|discriminate].
    destruct (l !! 0); [|discriminate]. by injection Hchild as _ <-. }
  apply bind_inv in Hrun as (len & s3 & Hlen & Hrun).
  assert (s3 = set_heap (<[arr := mkBlock 1 [] (PPtrArray []
                                   (Some Notify_g_object_unref))]> (heap s)) s)
    as ->.
  { unfold g_variant_iter_init in Hlen.
    destruct (g_variant_children child) as [l|]; [|discriminate].
    by injection Hlen as _ <-. }
  apply bind_inv in Hrun as (error & s4 & Hloop & Hrun).
  apply array_from_variant_loop_apart with (x := x) (b := b) in Hloop.
  2:{ split_and!; simpl; [by rewrite lookup_insert_ne|done|].
      intros rc wp pdata f. rewrite lookup_insert_eq. intros [= _ _ <- _].
      apply not_elem_of_nil. }
  apply bind_inv in Hrun as (array & s5 & Hchoice & Hrun).
  apply bind_inv in Hrun as (u & s6 & Hunref & Hret).
  injection Hret as _ <-.
  eapply g_ptr_array_unref_frame; [|exact Hunref].
  destruct error as [e|].
  - by injection Hchoice as _ <-.
  - apply bind_inv in Hchoice as (a & s7 & Href & Hret).
    injection Hret as _ <-. by eapply g_ptr_array_ref_apart.
Qed.


Lemma with_proxy_inv {A} client (val : A) k s r s' :
  with_proxy client val k s = Some (r, s') →
  heap s' = heap s ∨
  ∃ px, connected_with s client px ∧ k px s = Some (r, s').
Proof.
  unfold with_proxy, bind, get_state, connected_with.
  destruct (client_priv (heap s) client) as [priv|] eqn:Hpriv.
  - destruct (proxy priv) as [px|] eqn:Hpx.
    + intros Hk. right. exists px. split; [by exists priv|done].
    + intros [= _ <-]. by left.
  - intros [= _ <-]. by left.
Qed.

Lemma g_dbus_proxy_call_sync_inv px method parameters c s r s' :
  g_dbus_proxy_call_sync px method parameters c s = Some (r, s') →
  heap s' = heap s.
Proof.
  unfold g_dbus_proxy_call_sync.
  destruct (proxy_call (world s) px method parameters c) as [r' w].
  by intros [= _ <-].
Qed.

Lemma list_sync_frame v failure client method parameters c s r s' x :
  is_Some (heap s !! x) →
  list_sync v failure client method parameters c s = Some (r, s') →
  heap s' !! x = heap s !! x.
Proof.
  intros Hx Hrun. unfold list_sync in Hrun.
  apply with_proxy_inv in Hrun as [->|(px & _ & Hrun)]; [done|].
  apply bind_inv in Hrun as (result & s1 & Hcall & Hrun).
  apply g_dbus_proxy_call_sync_inv in Hcall.
  destruct result as [result|e].
  - rewrite <- Hcall in *. by eapply array_from_variant_frame.
  - injection Hrun as _ <-. by rewrite Hcall.
Qed.

Lemma object_sync_frame v client method parameters c s r s' x :
  is_Some (heap s !! x) →
  object_sync v client method parameters c s = Some (r, s') →
  heap s' !! x = heap s !! x.
Proof.
  intros [b Hx] Hrun. unfold object_sync in Hrun.
  apply with_proxy_inv in Hrun as [->|(px & _ & Hrun)]; [done|].
  apply bind_inv in Hrun as (result & s1 & Hcall & Hrun).
  apply g_dbus_proxy_call_sync_inv in Hcall.
  destruct result as [result|e]; [|injection Hrun as _ <-; by rewrite Hcall].
  apply bind_inv in Hrun as (p & s2 & Hpath & Hrun).
  assert (s2 = s1) as ->.
  { unfold g_variant_get_o in Hpath.
    destruct result as [| | | |[|[] [|]]]; try discriminate.
    by injection Hpath as _ <-. }
  apply bind_inv in Hrun as (object & s3 & Hnew & Hrun).
  rewrite cd_handle_new_run in Hnew. injection Hnew as <- <-.
  rewrite Hcall in Hrun.
  set (object := fresh (dom (heap s))) in *.
  assert (heap s !! object = None) as Hfresh by apply fresh_heap.
  assert (object ≠ x) as Hox by (intros Heq; rewrite Heq in Hfresh; congruence).
  apply bind_inv in Hrun as (ok & s4 & Hbind & Hrun).
  rewrite (cd_handle_set_object_path_sync_run v object p c _ 1 []
             (mkHandle v None false)) in Hbind
    by (simpl; apply lookup_insert_eq).
  simpl in Hbind.
  destruct (object_fetch (world s1) v p c) as [[e|] w]; simpl in Hbind;
    injection Hbind as <- <-.
  - apply bind_inv in Hrun as (u & s5 & Hunref & Hret).
    injection Hret as _ <-.
    rewrite (g_object_unref_frame _ _ _ _ _ Hox Hunref). simpl.
    by rewrite lookup_insert_ne.
  - apply bind_inv in Hrun as (u & s5 & Href & Hrun).
    apply bind_inv in Hrun as (u' & s6 & Hunref & Hret).
    injection Hret as _ <-.
    rewrite (g_object_unref_frame _ _ _ _ _ Hox Hunref).
    unfold g_object_ref in Href. simpl in Href.
    rewrite lookup_insert_eq in Href. injection Href as _ <-. simpl.
    by rewrite !lookup_insert_ne.
Qed.

Lemma delete_sync_frame client method id c s r s' :
  delete_sync client method id c s = Some (r, s') →
  heap s' = heap s.
Proof.
  intros Hrun. unfold delete_sync in Hrun.
  apply with_proxy_inv in Hrun as [->|(px & _ & Hrun)]; [done|].
  apply bind_inv in Hrun as (result & s1 & Hcall & Hrun).
  apply g_dbus_proxy_call_sync_inv in Hcall.
  destruct result; injection Hrun as _ <-; done.
Qed.

Lemma cd_client_get_daemon_version_frame client s r s' :
  cd_client_get_daemon_version client s = Some (r, s') →
  heap s' = heap s.
Proof.
  unfold cd_client_get_daemon_version, bind, get_state.
  destruct (client_priv (heap s) client); by intros [= _ <-].
Qed.

(** Every block that is live before a call is the same after it. *)
Lemma run_frame op client c s r s' x :
  is_Some (heap s !! x) →
  run op client c s = Some (r, s') →
  heap s' !! x = heap s !! x.
Proof.
  intros Hx Hrun.
  destruct op; simpl in Hrun; unfold with_pointer, with_boolean in Hrun;
    apply bind_inv in Hrun as (r1 & s1 & Hrun & Hret);
    injection Hret as _ <-.
  - by eapply list_sync_frame.
  - by eapply list_sync_frame.
  - by eapply list_sync_frame.
  - by eapply object_sync_frame.
  - by eapply object_sync_frame.
  - by rewrite (delete_sync_frame _ _ _ _ _ _ _ Hrun).
  - by rewrite (delete_sync_frame _ _ _ _ _ _ _ Hrun).
  - by eapply object_sync_frame.
  - by eapply object_sync_frame.
  - by rewrite (cd_client_get_daemon_version_frame _ _ _ _ Hrun).
Qed.

(** A call on a pointer that is not a live client changes no block. *)
Lemma run_no_client op client c s r s' :
  client_priv (heap s) client = None →
  run op client c s = Some (r, s') →
  heap s' = heap s.
Proof.
  intros Hnone Hrun.
  assert (∀ A (val : A) k r1 s1,
            with_proxy client val k s = Some (r1, s1) → heap s1 = heap s)
    as Hguard.
  { intros A val k r1 s1. unfold with_proxy, bind, get_state.
    rewrite Hnone. by intros [= _ <-]. }
  destruct op; simpl in Hrun; unfold with_pointer, with_boolean in Hrun;
    apply bind_inv in Hrun as (r1 & s1 & Hrun & Hret);
    injection Hret as _ <-;
    try (by eapply Hguard).
  by eapply cd_client_get_daemon_version_frame.
Qed.

(** C10: whatever a call other than connect returns, the private data of
    the client it was made on (the transport and the cached version) is
    what it was before the call. *)
Theorem run_keeps_client_state op client c s r s' :
  run op client c s = Some (r, s') →
  client_priv (heap s') client = client_priv (heap s) client.
Proof.
  intros Hrun.
  destruct (client_priv (heap s) client) as [priv|] eqn:Hpriv.
  - unfold client_priv in *.
    destruct (heap s !! client) as [b|] eqn:Hb; [|discriminate].
    rewrite (run_frame op client c s r s' client) by (by rewrite ?Hb).
    by rewrite Hb.
  - by rewrite (run_no_client op client c s r s' Hpriv Hrun).
Qed.


(** * Further properties *)

(** ** More on the list calls *)

(** X1: when the daemon answers a list call with an error, the call
    returns NULL with the client's error "Failed to <method>: <message>",
    no handle is created or bound, and the heap is unchanged. *)
Theorem list_call_remote_error l s client px c e w :
  connected_with s client px →
  proxy_call (world s) px (list_method l) (list_parameters l) c = (inr e, w) →
  ∃ s',
    list_call l client c s
    = Some ((None,
             Some (mkGError CD_CLIENT_ERROR CD_CLIENT_ERROR_FAILED
                     ("Failed to " ++ list_method l ++ ": " ++ message e)%string)),
            s') ∧
    heap s' = heap s ∧
    world s' = w ∧
    remote_calls s'
    = remote_calls s ++ [ProxyCall (list_method l) (list_parameters l)].
Proof.
  intros Hconn Hcall. rewrite list_call_unfold. unfold list_sync.
  rewrite (with_proxy_connected _ _ _ _ _ Hconn).
  unfold bind, g_dbus_proxy_call_sync. rewrite Hcall.
  eexists. split_and!; [reflexivity|done..].
Qed.

(** X2: when the reply lists [paths] and every fetch succeeds, a list
    call returns an array, held once, of handles of the call's variant,
    one per path and in the order of the reply, each held once, at
    addresses that were free before the call; every block that was live
    is unchanged, and the daemon saw the method call followed by one bind
    per path, in order. *)
Theorem list_call_success l s client px c paths w k w' :
  connected_with s client px →
  proxy_call (world s) px (list_method l) (list_parameters l) c
  = (inl (paths_reply paths), w) →
  fetch_all (list_variant l) c paths w = (k, None, w') →
  ∃ arr addrs s',
    list_call l client c s = Some ((Some arr, None), s') ∧
    extends (heap s) arr (list_variant l) addrs paths (heap s') ∧
    world s' = w' ∧
    remote_calls s'
    = remote_calls s
      ++ ProxyCall (list_method l) (list_parameters l)
         :: set_object_paths (list_variant l) paths.
Proof.
  intros Hconn Hcall Hfetch.
  destruct (list_call_exact l s client px c paths w Hconn Hcall)
    as (s' & Hw & Hcalls & _ & _ & Hres).
  pose proof (fetch_all_complete (list_variant l) c paths w) as Hk.
  rewrite Hfetch in Hw, Hcalls, Hres, Hk. simpl in *.
  rewrite (Hk eq_refl), Nat.add_0_r, firstn_all in Hcalls.
  destruct Hres as (arr & addrs & Hrun & Hext).
  by exists arr, addrs, s'.
Qed.

(** X3: a reply that lists no path gives an empty array, not NULL: the
    only new block is the array, and nothing is bound. *)
Theorem list_call_empty_reply l s client px c w :
  connected_with s client px →
  proxy_call (world s) px (list_method l) (list_parameters l) c
  = (inl (paths_reply []), w) →
  ∃ arr s',
    list_call l client c s = Some ((Some arr, None), s') ∧
    heap s !! arr = None ∧
    heap s' = <[arr := array_block []]> (heap s) ∧
    remote_calls s'
    = remote_calls s ++ [ProxyCall (list_method l) (list_parameters l)].
Proof.
  intros Hconn Hcall.
  destruct (list_call_exact l s client px c [] w Hconn Hcall)
    as (s' & _ & Hcalls & _ & _ & Hres).
  simpl in Hcalls, Hres.
  destruct Hres as (arr & addrs & Hrun & Hfree & Harr & Hall & _ & _ & Hframe).
  apply Forall2_nil_inv_r in Hall as ->.
  exists arr, s'. split_and!; try done.
  apply map_eq. intros x. destruct (decide (x = arr)) as [->|Hne].
  - by rewrite lookup_insert_eq.
  - rewrite lookup_insert_ne by done. apply Hframe; [done|apply not_elem_of_nil].
Qed.

(** The one reference a caller holds on an array of handles held once
    frees the array and the handles. *)
Lemma g_ptr_array_unref_extends h arr v addrs paths s :
  extends h arr v addrs paths (heap s) →
  g_ptr_array_unref arr s = Some (tt, set_heap h s).
Proof.
  intros (Hfree & Harr & Hall & Hnew & Hnd & Hframe).
  destruct (foreach_unref_handles v addrs paths s Hnd Hall) as (h' & Hrun & Hh').
  unfold g_ptr_array_unref. rewrite Harr. simpl.
  erewrite bind_Some by exact Hrun. simpl. unfold modify. simpl.
  do 2 f_equal. unfold set_heap. simpl. f_equal.
  apply map_eq. intros x. destruct (decide (x = arr)) as [->|Hne].
  - by rewrite lookup_delete_eq.
  - rewrite lookup_delete_ne by done. rewrite Hh'. case_decide as Hin.
    + symmetry. rewrite Forall_forall in Hnew. by apply Hnew.
    + by apply Hframe.
Qed.

(** X4: the array a list call returns is the caller's to free: one
    [g_ptr_array_unref] on it releases the array and every handle in it,
    and the heap is again the heap before the call. *)
Theorem list_call_then_unref l s client px c paths w k w' :
  connected_with s client px →
  proxy_call (world s) px (list_method l) (list_parameters l) c
  = (inl (paths_reply paths), w) →
  fetch_all (list_variant l) c paths w = (k, None, w') →
  ∃ arr s' s'',
    list_call l client c s = Some ((Some arr, None), s') ∧
    g_ptr_array_unref arr s' = Some (tt, s'') ∧
    heap s'' = heap s ∧
    cd_client_object s'' = cd_client_object s.
Proof.
  intros Hconn Hcall Hfetch.
  destruct (list_call_exact l s client px c paths w Hconn Hcall)
    as (s' & _ & _ & Hobj & _ & Hres).
  rewrite Hfetch in Hres. simpl in Hres.
  destruct Hres as (arr & addrs & Hrun & Hext).
  exists arr, s', (set_heap (heap s) s'). split_and!; try done.
  by eapply g_ptr_array_unref_extends.
Qed.

(** X5: two list calls that succeed one after the other return two
    different arrays whose handles are all different objects: handles are
    made anew by each call, and those of the first call are still bound
    after the second. *)
Theorem list_calls_share_no_handle l1 l2 s client px c1 c2
    paths1 paths2 w1 k1 w1' w2 k2 w2' :
  connected_with s client px →
  proxy_call (world s) px (list_method l1) (list_parameters l1) c1
  = (inl (paths_reply paths1), w1) →
  fetch_all (list_variant l1) c1 paths1 w1 = (k1, None, w1') →
  proxy_call w1' px (list_method l2) (list_parameters l2) c2
  = (inl (paths_reply paths2), w2) →
  fetch_all (list_variant l2) c2 paths2 w2 = (k2, None, w2') →
  ∃ arr1 addrs1 s1 arr2 addrs2 s2,
    list_call l1 client c1 s = Some ((Some arr1, None), s1) ∧
    list_call l2 client c2 s1 = Some ((Some arr2, None), s2) ∧
    arr1 ≠ arr2 ∧
    (∀ a, a ∈ addrs1 → a ∉ addrs2) ∧
    heap s2 !! arr1 = Some (array_block addrs1) ∧
    heap s2 !! arr2 = Some (array_block addrs2) ∧
    Forall2 (λ a p, heap s2 !! a = Some (handle_block (list_variant l1) p))
            addrs1 paths1 ∧
    Forall2 (λ a p, heap s2 !! a = Some (handle_block (list_variant l2) p))
            addrs2 paths2.
Proof.
  intros Hconn Hcall1 Hfetch1 Hcall2 Hfetch2.
  destruct (list_call_exact l1 s client px c1 paths1 w1 Hconn Hcall1)
    as (s1 & Hw1 & _ & _ & _ & Hres1).
  rewrite Hfetch1 in Hw1, Hres1. simpl in Hw1, Hres1.
  destruct Hres1 as (arr1 & addrs1 & Hrun1 & Hext1).
  pose proof Hext1 as (Hfree1 & Harr1 & Hall1 & Hnew1 & Hnd1 & Hframe1).
  assert (connected_with s1 client px) as Hconn1.
  { destruct Hconn as (priv & Hpriv & Hpx). exists priv. split; [|done].
    unfold client_priv in *.
    destruct (heap s !! client) as [b|] eqn:Hb; [|discriminate].
    rewrite Hframe1; [by rewrite Hb|congruence|].
    intros Hin. rewrite Forall_forall in Hnew1. specialize (Hnew1 _ Hin).
    congruence. }
  rewrite <- Hw1 in Hcall2.
  destruct (list_call_exact l2 s1 client px c2 paths2 w2 Hconn1 Hcall2)
    as (s2 & _ & _ & _ & _ & Hres2).
  rewrite Hfetch2 in Hres2. simpl in Hres2.
  destruct Hres2 as (arr2 & addrs2 & Hrun2 & Hext2).
  destruct Hext2 as (Hfree2 & Harr2 & Hall2 & Hnew2 & Hnd2 & Hframe2).
  assert (arr1 ≠ arr2) as Hne by congruence.
  assert (∀ a, a ∈ addrs1 → a ∉ addrs2) as Hdisj.
  { intros a Hin1 Hin2. rewrite Forall_forall in Hnew2.
    specialize (Hnew2 _ Hin2).
    apply list_elem_of_lookup in Hin1 as [i Hi].
    destruct (Forall2_lookup_l _ _ _ _ _ Hall1 Hi) as (p & _ & Hp).
    congruence. }
  exists arr1, addrs1, s1, arr2, addrs2, s2.
  split_and!; try done.
  - rewrite Hframe2; [done|done|].
    intros Hin. rewrite Forall_forall in Hnew2. specialize (Hnew2 _ Hin).
    congruence.
  - apply Forall2_same_length_lookup. split; [by eapply Forall2_length|].
    intros i a p Hi Hp.
    pose proof (Forall2_lookup_lr _ _ _ _ _ _ Hall1 Hi Hp) as Ha. simpl in Ha.
    assert (a ∈ addrs1) as Hin by (by eapply list_elem_of_lookup_2).
    rewrite Hframe2; [done| |by apply Hdisj].
    intros ->. congruence.
Qed.



(** ** More on the calls that return one handle *)

Lemma object_call_unfold o client c :
  object_call o client c
  = object_sync (object_variant o) client (object_method o)
                (object_parameters o) c.
Proof. by destruct o. Qed.

(** X6: each of create_device, create_profile, find_device and
    find_profile, on a connected client: an error of the daemon comes
    back as the client's error "Failed to <method>: <message>" with no
    handle made; a reply [(path)] whose bind fails gives NULL with the
    error of the bind as it is, and the handle made for it is released;
    a reply whose bind succeeds gives a new handle of the call's variant,
    bound to the path and held once. *)
Theorem object_call_outcomes o s client px c :
  connected_with s client px →
  let call := ProxyCall (object_method o) (Some (object_parameters o)) in
  (∀ e w,
     proxy_call (world s) px (object_method o) (Some (object_parameters o)) c
     = (inr e, w) →
     ∃ s',
       object_call o client c s
       = Some ((None,
                Some (mkGError CD_CLIENT_ERROR CD_CLIENT_ERROR_FAILED
                        ("Failed to " ++ object_method o ++ ": "
                         ++ message e)%string)), s') ∧
       heap s' = heap s ∧
       remote_calls s' = remote_calls s ++ [call]) ∧
  (∀ p w e w',
     proxy_call (world s) px (object_method o) (Some (object_parameters o)) c
     = (inl (GVTuple [GVObjectPath p]), w) →
     object_fetch w (object_variant o) p c = (Some e, w') →
     ∃ s',
       object_call o client c s = Some ((None, Some e), s') ∧
       heap s' = heap s ∧
       remote_calls s'
       = remote_calls s ++ [call; SetObjectPath (object_variant o) p]) ∧
  (∀ p w w',
     proxy_call (world s) px (object_method o) (Some (object_parameters o)) c
     = (inl (GVTuple [GVObjectPath p]), w) →
     object_fetch w (object_variant o) p c = (None, w') →
     ∃ object s',
       object_call o client c s = Some ((Some object, None), s') ∧
       heap s !! object = None ∧
       heap s' = <[object := handle_block (object_variant o) p]> (heap s) ∧
       remote_calls s'
       = remote_calls s ++ [call; SetObjectPath (object_variant o) p]).
Proof.
  intros Hconn call. rewrite object_call_unfold.
  destruct (object_sync_exact (object_variant o) s client px (object_method o)
              (object_parameters o) c Hconn) as (Herr & Hbind & Hok).
  split_and!.
  - intros e w Hcall. eexists. split_and!; [by apply Herr|done|done].
  - exact Hbind.
  - exact Hok.
Qed.

(** X7: the handle such a call returns is the caller's to free: one
    [g_object_unref] on it releases it, and the heap and the static
    pointer are again what they were before the call. *)
Theorem object_call_then_unref o s client px c p w w' :
  connected_with s client px →
  proxy_call (world s) px (object_method o) (Some (object_parameters o)) c
  = (inl (GVTuple [GVObjectPath p]), w) →
  object_fetch w (object_variant o) p c = (None, w') →
  ∃ object s' s'',
    object_call o client c s = Some ((Some object, None), s') ∧
    g_object_unref object s' = Some (tt, s'') ∧
    heap s'' = heap s ∧
    cd_client_object s'' = cd_client_object s.
Proof.
  intros Hconn Hcall Hfetch. rewrite object_call_unfold.
  unfold object_sync. rewrite (with_proxy_connected _ _ _ _ _ Hconn).
  erewrite bind_Some; cycle 1.
  { unfold g_dbus_proxy_call_sync. rewrite Hcall. reflexivity. }
  cbv beta iota.
  set (v := object_variant o) in *.
  rewrite (bind_Some _ _ _ _ _ (g_variant_get_o_run p _)). cbv beta.
  rewrite (bind_Some _ _ _ _ _ (cd_handle_new_run v _)). cbv beta.
  simpl heap. set (object := fresh (dom (heap s))).
  assert (heap s !! object = None) as Hfresh by apply fresh_heap.
  erewrite bind_Some; cycle 1.
  { rewrite (cd_handle_set_object_path_sync_run v object p c _ 1 []
               (mkHandle v None false))
      by (simpl; apply lookup_insert_eq).
    simpl. rewrite Hfetch. reflexivity. }
  cbv beta iota.
  erewrite bind_Some; cycle 1.
  { unfold g_object_ref. simpl. rewrite lookup_insert_eq. reflexivity. }
  cbv beta.
  erewrite bind_Some; cycle 1.
  { unfold g_object_unref. simpl. rewrite lookup_insert_eq. reflexivity. }
  eexists _, _, _. split_and!; [reflexivity| | |].
  - unfold g_object_unref. simpl. rewrite lookup_insert_eq. reflexivity.
  - simpl. rewrite !insert_insert_eq, delete_insert_eq. by apply delete_id.
  - done.
Qed.

(** ** More on connecting *)

(** X8: when the bus hands out no proxy, connect returns FALSE with the
    client's error "Failed to connect to colord: <message>", and the
    process is unchanged but for the attempt: the client still has no
    transport, so connect can be called again. *)
Theorem connect_failure_leaves_unconnected s client c e w :
  unconnected s client →
  proxy_new_for_bus (world s) COLORD_DBUS_SERVICE COLORD_DBUS_PATH
                    COLORD_DBUS_INTERFACE c = (inr e, w) →
  ∃ s',
    cd_client_connect_sync client c s
    = Some ((false,
             Some (mkGError CD_CLIENT_ERROR CD_CLIENT_ERROR_FAILED
                     ("Failed to connect to colord: " ++ message e)%string)),
            s') ∧
    heap s' = heap s ∧
    unconnected s' client ∧
    world s' = w ∧
    remote_calls s'
    = remote_calls s
      ++ [ProxyNew COLORD_DBUS_SERVICE COLORD_DBUS_PATH COLORD_DBUS_INTERFACE].
Proof.
  intros (priv & Hpriv & Hpx) Hnew.
  unfold cd_client_connect_sync, bind, get_state. rewrite Hpriv, Hpx.
  unfold g_dbus_proxy_new_for_bus_sync. rewrite Hnew.
  eexists. split_and!; [reflexivity|done| |done|done].
  by exists priv.
Qed.

(** X9: when the bus hands out a proxy, connect on a client without a
    transport returns TRUE with no error after the one request for the
    proxy; only the client's block changes: it keeps its references and
    holds the proxy, with the client's signal callback connected to
    "g-signal", and as version the string of the cached "Title" property
    if the proxy has one.  The getter then returns that version, and a
    further connect is refused. *)
Theorem connect_success_connects s client c rc wp priv px w :
  heap s !! client = Some (mkBlock rc wp (PClient priv)) →
  proxy priv = None →
  proxy_new_for_bus (world s) COLORD_DBUS_SERVICE COLORD_DBUS_PATH
                    COLORD_DBUS_INTERFACE c = (inl px, w) →
  let px' := mkProxy (cached_properties px)
                     (signal_handlers px
                      ++ [mkHandler "g-signal"
                            G_CALLBACK_cd_client_dbus_signal_cb client]) in
  let version := match cached_properties px !! "Title" with
                 | Some v => g_variant_dup_string v
                 | None => daemon_version priv
                 end in
  ∃ s',
    cd_client_connect_sync client c s = Some ((true, None), s') ∧
    heap s' = <[client := mkBlock rc wp (PClient (mkPriv (Some px') version))]>
                (heap s) ∧
    world s' = w ∧
    remote_calls s'
    = remote_calls s
      ++ [ProxyNew COLORD_DBUS_SERVICE COLORD_DBUS_PATH COLORD_DBUS_INTERFACE] ∧
    cd_client_object s' = cd_client_object s ∧
    cd_client_get_daemon_version client s' = Some (version, s') ∧
    ∀ c', ∃ s'',
      cd_client_connect_sync client c' s' = Some ((false, None), s'') ∧
      heap s'' = heap s' ∧ remote_calls s'' = remote_calls s'.
Proof.
  intros Hblock Hpx Hnew px' version.
  assert (client_priv (heap s) client = Some priv) as Hpriv
    by (unfold client_priv; by rewrite Hblock).
  unfold cd_client_connect_sync at 1. unfold bind, get_state.
  rewrite Hpriv, Hpx.
  unfold g_dbus_proxy_new_for_bus_sync. rewrite Hnew.
  unfold set_client_priv. simpl. rewrite Hblock. simpl.
  eexists. split; [reflexivity|]. simpl.
  assert (∀ m, client_priv
                 (<[client := mkBlock rc wp
                                (PClient (mkPriv (Some px') version))]> m)
                 client
               = Some (mkPriv (Some px') version)) as Hpriv'.
  { intros m. unfold client_priv. by rewrite lookup_insert_eq. }
  split_and!; try done.
  - unfold cd_client_get_daemon_version, bind, get_state. simpl.
    fold px'. fold version. by rewrite Hpriv'.
  - intros c'. unfold cd_client_connect_sync, bind, get_state. simpl.
    fold px'. fold version. rewrite Hpriv'. simpl.
    eexists. split_and!; [reflexivity|done|done].
Qed.

(** ** Objects that are not clients *)

(** X10: on a pointer to a live object of another type (a device or
    profile handle passed where the client is expected) every call,
    connect included, returns its failure value with no error set;
    nothing is asked of the daemon and no block changes. *)
Theorem calls_on_a_non_client s client c rc wp h :
  heap s !! client = Some (mkBlock rc wp (PHandle h)) →
  (∀ op, ∃ s',
     run op client c s = Some ((failure_value op, None), s') ∧
     heap s' = heap s ∧ remote_calls s' = remote_calls s ∧
     world s' = world s) ∧
  (∃ s',
     cd_client_connect_sync client c s = Some ((false, None), s') ∧
     heap s' = heap s ∧ remote_calls s' = remote_calls s ∧
     world s' = world s).
Proof.
  intros Hblock.
  assert (client_priv (heap s) client = None) as Hnone
    by (unfold client_priv; by rewrite Hblock).
  clear Hblock. split.
  - intros op.
    assert (∀ A (val : A) k,
              with_proxy client val k s
              = Some (val, record_message LOG_CRITICAL
                             "assertion 'CD_IS_CLIENT (client)' failed" s))
      as Hguard.
    { intros A val k. unfold with_proxy, bind, get_state. by rewrite Hnone. }
    destruct op; simpl;
      unfold with_pointer, with_boolean,
        cd_client_get_devices_sync, cd_client_get_devices_by_kind_sync,
        cd_client_get_profiles_sync, cd_client_create_device_sync,
        cd_client_create_profile_sync, cd_client_delete_device_sync,
        cd_client_delete_profile_sync, cd_client_find_device_sync,
        cd_client_find_profile_sync, list_sync, object_sync, delete_sync;
      try (unfold bind at 1; rewrite Hguard; eexists;
           split_and!; [reflexivity|done..]).
    unfold cd_client_get_daemon_version, bind, get_state. rewrite Hnone.
    eexists. split_and!; [reflexivity|done..].
  - unfold cd_client_connect_sync, bind, get_state. rewrite Hnone.
    eexists. split_and!; [reflexivity|done..].
Qed.

(** ** The cached version *)

(** X11: the version the getter returns does not change over any
    sequence of calls other than connect, whatever the daemon answers:
    it is never refreshed. *)
Theorem daemon_version_is_never_refreshed ops client c s s' :
  run_all ops client c s = Some (tt, s') →
  fst <$> cd_client_get_daemon_version client s'
  = fst <$> cd_client_get_daemon_version client s.
Proof.
  revert s. induction ops as [|op ops IH]; intros s Hrun.
  - by injection Hrun as <-.
  - simpl in Hrun. apply bind_inv in Hrun as (r & s1 & Hop & Hrest).
    rewrite (IH _ Hrest).
    assert (client_priv (heap s1) client = client_priv (heap s) client)
      as Hsame.
    { destruct (client_priv (heap s) client) as [priv|] eqn:Hpriv.
      - unfold client_priv in *.
        destruct (heap s !! client) as [b|] eqn:Hb; [|discriminate].
        rewrite (run_frame op client c s r s1 client) by (by rewrite ?Hb).
        by rewrite Hb.
      - by rewrite (run_no_client op client c s r s1 Hpriv Hop). }
    unfold cd_client_get_daemon_version, bind, get_state. rewrite Hsame.
    by destruct (client_priv (heap s) client).
Qed.

(** X12: reading the "daemon-version" property of a client gives what
    the getter gives and changes nothing; any other property id leaves
    the value as it was and logs one warning. *)
Theorem get_property_agrees_with_getter s object priv value pspec :
  client_priv (heap s) object = Some priv →
  cd_client_get_property object PROP_DAEMON_VERSION value pspec s
  = cd_client_get_daemon_version object s ∧
  cd_client_get_daemon_version object s = Some (daemon_version priv, s) ∧
  ∀ prop_id, prop_id ≠ PROP_DAEMON_VERSION →
    ∃ m, cd_client_get_property object prop_id value pspec s
         = Some (value, record_message LOG_WARNING m s).
Proof.
  intros Hpriv. split_and!.
  - unfold cd_client_get_property, cd_client_get_daemon_version, bind,
      get_state. by rewrite Hpriv.
  - unfold cd_client_get_daemon_version, bind, get_state. by rewrite Hpriv.
  - intros prop_id Hid.
    unfold cd_client_get_property, bind, get_state. rewrite Hpriv.
    rewrite decide_False by done. eexists. reflexivity.
Qed.





(** ** What a call leaves alone, in full *)

Lemma aside_refl s : aside s s.
Proof.
  split_and!; [done|done|..].
  - intros x b Hnone Hsome. congruence.
  - intros x rc wp pdata f Hnone Hsome. congruence.
Qed.

Lemma aside_same s0 s s' :
  aside s0 s → heap s' = heap s → cd_client_object s' = cd_client_object s →
  aside s0 s'.
Proof.
  intros (Hobj & Hold & Hwp & Harr) Hheap Hptr.
  split_and!; rewrite ?Hheap, ?Hptr; done.
Qed.

Lemma aside_insert s0 s s' x b :
  aside s0 s →
  heap s0 !! x = None →
  weak_pointers b = [] →
  (∀ pdata f, payload b = PPtrArray pdata f →
              Forall (λ a, heap s0 !! a = None) pdata) →
  heap s' = <[x := b]> (heap s) →
  cd_client_object s' = cd_client_object s →
  aside s0 s'.
Proof.
  intros (Hobj & Hold & Hwp & Harr) Hx Hb Hpdata Hheap Hptr.
  split_and!; rewrite ?Hheap, ?Hptr; [done|..].
  - intros y c Hy. rewrite lookup_insert_ne by congruence. by apply Hold.
  - intros y c Hy. destruct (decide (x = y)) as [->|Hne].
    + rewrite lookup_insert_eq. by intros [= <-].
    + rewrite lookup_insert_ne by done. by apply Hwp.
  - intros y rc wp pdata f Hy. destruct (decide (x = y)) as [->|Hne].
    + rewrite lookup_insert_eq. intros [= ->]. by eapply Hpdata.
    + rewrite lookup_insert_ne by done. by apply Harr.
Qed.

Lemma aside_delete s0 s s' x :
  aside s0 s →
  heap s0 !! x = None →
  heap s' = delete x (heap s) →
  cd_client_object s' = cd_client_object s →
  aside s0 s'.
Proof.
  intros (Hobj & Hold & Hwp & Harr) Hx Hheap Hptr.
  split_and!; rewrite ?Hheap, ?Hptr; [done|..].
  - intros y c Hy. rewrite lookup_delete_ne by congruence. by apply Hold.
  - intros y c Hy. destruct (decide (x = y)) as [->|Hne].
    + by rewrite lookup_delete_eq.
    + rewrite lookup_delete_ne by done. by apply Hwp.
  - intros y rc wp pdata f Hy. destruct (decide (x = y)) as [->|Hne].
    + by rewrite lookup_delete_eq.
    + rewrite lookup_delete_ne by done. by apply Harr.
Qed.

(** An address that is free now was free when the call was entered. *)
Lemma aside_free s0 s x :
  aside s0 s → heap s !! x = None → heap s0 !! x = None.
Proof.
  intros (_ & Hold & _) Hx.
  destruct (heap s0 !! x) as [b|] eqn:Hb; [|done].
  rewrite (Hold _ _ Hb) in Hx. discriminate.
Qed.

Lemma g_object_unref_aside s0 d s u s' :
  aside s0 s → heap s0 !! d = None →
  g_object_unref d s = Some (u, s') →
  aside s0 s'.
Proof.
  intros Hin Hd. unfold g_object_unref.
  destruct (heap s !! d) as [b|] eqn:Hb; [|discriminate].
  pose proof Hin as (_ & _ & Hwp & Harr).
  pose proof (Hwp _ _ Hd Hb) as Hnil.
  destruct b as [rc wp pl]. simpl in *. subst wp.
  destruct rc as [|[|n]]; simpl.
  - unfold cd_client_finalize, cd_handle_finalize, modify.
    destruct pl; try discriminate; intros [= _ <-];
      by eapply aside_delete.
  - unfold cd_client_finalize, cd_handle_finalize, modify.
    destruct pl; try discriminate; intros [= _ <-];
      by eapply aside_delete.
  - intros [= _ <-].
    eapply (aside_insert s0 s _ d (mkBlock (S n) [] pl));
      [exact Hin|exact Hd|reflexivity| |reflexivity|reflexivity].
    simpl. intros pdata f ->. by eapply Harr.
Qed.

Lemma foreach_unref_aside s0 l :
  ∀ s u s',
  aside s0 s → Forall (λ a, heap s0 !! a = None) l →
  foreach g_object_unref l s = Some (u, s') →
  aside s0 s'.
Proof.
  induction l as [|d l IH]; intros s u s' Hin Hnew Hrun.
  - injection Hrun as _ <-. done.
  - apply Forall_cons in Hnew as [Hd Hnew]. simpl in Hrun.
    apply bind_inv in Hrun as (u1 & s1 & Hfirst & Hrest).
    eapply IH; [|done|exact Hrest]. by eapply g_object_unref_aside.
Qed.

Lemma g_ptr_array_unref_aside s0 arr s u s' :
  aside s0 s → heap s0 !! arr = None →
  g_ptr_array_unref arr s = Some (u, s') →
  aside s0 s'.
Proof.
  intros Hin Harr0. unfold g_ptr_array_unref.
  destruct (heap s !! arr) as [[rc wp [|?|pdata f]]|] eqn:Harr;
    try discriminate.
  pose proof Hin as (_ & _ & Hwp & Hpd).
  pose proof (Hwp _ _ Harr0 Harr) as Hnil. simpl in Hnil. subst wp.
  pose proof (Hpd _ _ _ _ _ Harr0 Harr) as Hnew.
  assert (∀ m : M unit,
            (∀ s1 u1 s2, aside s0 s1 → m s1 = Some (u1, s2) → aside s0 s2) →
            (m ;;; modify (λ s1, set_heap (delete arr (heap s1)) s1)) s
            = Some (u, s') → aside s0 s') as Hlast.
  { intros m Hm Hrun. apply bind_inv in Hrun as (u1 & s1 & Hm1 & Hdel).
    injection Hdel as _ <-. eapply aside_delete; [by eapply Hm|done..]. }
  destruct rc as [|[|n]].
  - apply Hlast. destruct f as [[]|]; intros s1 u1 s2 H1.
    + intros Hrun. by eapply foreach_unref_aside.
    + by intros [= _ <-].
  - apply Hlast. destruct f as [[]|]; intros s1 u1 s2 H1.
    + intros Hrun. by eapply foreach_unref_aside.
    + by intros [= _ <-].
  - intros [= _ <-].
    eapply (aside_insert s0 s _ arr (mkBlock (S n) [] (PPtrArray pdata f)));
      [exact Hin|exact Harr0|reflexivity| |reflexivity|reflexivity].
    simpl. by intros pdata' f' [= <- _].
Qed.

Lemma g_ptr_array_ref_aside s0 arr s a s' :
  aside s0 s → heap s0 !! arr = None →
  g_ptr_array_ref arr s = Some (a, s') →
  aside s0 s'.
Proof.
  intros Hin Harr0. unfold g_ptr_array_ref.
  destruct (heap s !! arr) as [[rc wp [|?|pdata f]]|] eqn:Harr;
    try discriminate.
  pose proof Hin as (_ & _ & Hwp & Hpd).
  pose proof (Hwp _ _ Harr0 Harr) as Hnil. simpl in Hnil. subst wp.
  pose proof (Hpd _ _ _ _ _ Harr0 Harr) as Hnew.
  intros [= _ <-].
  eapply (aside_insert s0 s _ arr (mkBlock (S rc) [] (PPtrArray pdata f)));
    [exact Hin|exact Harr0|reflexivity| |reflexivity|reflexivity].
  simpl. by intros pdata' f' [= <- _].
Qed.

Lemma g_object_ref_aside s0 d s u s' :
  aside s0 s → heap s0 !! d = None →
  g_object_ref d s = Some (u, s') →
  aside s0 s'.
Proof.
  intros Hin Hd. unfold g_object_ref.
  destruct (heap s !! d) as [[rc wp pl]|] eqn:Hb; [|discriminate].
  pose proof Hin as (_ & _ & Hwp & Harr).
  pose proof (Hwp _ _ Hd Hb) as Hnil. simpl in Hnil. subst wp.
  intros [= _ <-].
  eapply (aside_insert s0 s _ d (mkBlock (S rc) [] pl));
    [exact Hin|exact Hd|reflexivity| |reflexivity|reflexivity].
  simpl. intros pdata f ->. by eapply Harr.
Qed.

Lemma cd_handle_new_aside s0 v s object s' :
  aside s0 s →
  cd_handle_new v s = Some (object, s') →
  aside s0 s' ∧ heap s0 !! object = None.
Proof.
  intros Hin. rewrite cd_handle_new_run. intros [= <- <-].
  pose proof (aside_free _ _ _ Hin (fresh_heap (heap s))) as Hnew.
  split; [|done].
  eapply (aside_insert s0 s _ _ (mkBlock 1 [] (PHandle (mkHandle v None false))));
    [exact Hin|exact Hnew|reflexivity| |reflexivity|reflexivity].
  by intros pdata f.
Qed.

Lemma cd_handle_set_object_path_sync_aside s0 v h p c s ok s' :
  aside s0 s → heap s0 !! h = None →
  cd_handle_set_object_path_sync v h p c s = Some (ok, s') →
  aside s0 s'.
Proof.
  intros Hin Hh. unfold cd_handle_set_object_path_sync.
  destruct (heap s !! h) as [[rc wp [|hd|]]|] eqn:Hb; try discriminate.
  pose proof Hin as (_ & _ & Hwp & _).
  pose proof (Hwp _ _ Hh Hb) as Hnil. simpl in Hnil. subst wp.
  destruct (object_fetch (world s) v p c) as [[e|] w]; intros [= _ <-].
  - by eapply aside_same.
  - eapply (aside_insert s0 s _ h
              (mkBlock rc [] (PHandle (mkHandle (variant hd) (Some p) true))));
      [exact Hin|exact Hh|reflexivity| |reflexivity|reflexivity].
    by intros pdata f.
Qed.

Lemma g_ptr_array_add_aside s0 arr d s u s' :
  aside s0 s → heap s0 !! arr = None → heap s0 !! d = None →
  g_ptr_array_add arr d s = Some (u, s') →
  aside s0 s'.
Proof.
  intros Hin Harr0 Hd. unfold g_ptr_array_add.
  destruct (heap s !! arr) as [[rc wp [|?|pdata f]]|] eqn:Harr;
    try discriminate.
  pose proof Hin as (_ & _ & Hwp & Hpd).
  pose proof (Hwp _ _ Harr0 Harr) as Hnil. simpl in Hnil. subst wp.
  pose proof (Hpd _ _ _ _ _ Harr0 Harr) as Hnew.
  intros [= _ <-].
  eapply (aside_insert s0 s _ arr (mkBlock rc [] (PPtrArray (pdata ++ [d]) f)));
    [exact Hin|exact Harr0|reflexivity| |reflexivity|reflexivity].
  simpl. intros pdata' f' [= <- _]. apply Forall_app. split; [done|].
  by constructor.
Qed.

Lemma g_variant_get_child_o_pure child i s p s' :
  g_variant_get_child_o child i s = Some (p, s') → s' = s.
Proof.
  unfold g_variant_get_child_o, g_variant_get_child_value. intros Hrun.
  apply bind_inv in Hrun as (ch & s2 & Hch & Hp).
  destruct (g_variant_children child) as [l|]; [|discriminate].
  destruct (l !! i); [|discriminate]. injection Hch as _ <-.
  by destruct ch; try discriminate; injection Hp as _ <-.
Qed.

Lemma g_variant_get_o_pure result s p s' :
  g_variant_get_o result s = Some (p, s') → s' = s.
Proof.
  unfold g_variant_get_o.
  destruct result as [| | | |[|[] [|]]]; try discriminate.
  by intros [= _ <-].
Qed.

Lemma array_from_variant_loop_aside s0 v failure child arr c n :
  ∀ i s res s',
  aside s0 s → heap s0 !! arr = None →
  array_from_variant_loop v failure n i child arr c s = Some (res, s') →
  aside s0 s'.
Proof.
  induction n as [|n IH]; intros i s res s' Hin Harr0 Hrun.
  - by injection Hrun as _ <-.
  - simpl in Hrun.
    apply bind_inv in Hrun as (p & s1 & Hchild & Hrun).
    apply g_variant_get_child_o_pure in Hchild as ->.
    apply bind_inv in Hrun as (u & s2 & Hdebug & Hrun).
    injection Hdebug as _ <-.
    assert (aside s0 (record_message LOG_DEBUG p s)) as Hin2
      by (by eapply aside_same).
    apply bind_inv in Hrun as (object & s3 & Hnew & Hrun).
    apply (cd_handle_new_aside s0) in Hnew as [Hin3 Hobj]; [|done].
    apply bind_inv in Hrun as (ok & s4 & Hbind & Hrun).
    apply (cd_handle_set_object_path_sync_aside s0) in Hbind; [|done..].
    destruct ok as [e|].
    + apply bind_inv in Hrun as (u2 & s5 & Hunref & Hret).
      injection Hret as _ <-.
      eapply g_object_unref_aside; [exact Hbind|exact Hobj|exact Hunref].
    + apply bind_inv in Hrun as (u2 & s5 & Hadd & Hrun).
      eapply IH; [|exact Harr0|exact Hrun].
      eapply g_ptr_array_add_aside;
        [exact Hbind|exact Harr0|exact Hobj|exact Hadd].
Qed.

Lemma array_from_variant_aside s0 v failure result c s r s' :
  aside s0 s →
  array_from_variant v failure result c s = Some (r, s') →
  aside s0 s'.
Proof.
  intros Hin Hrun. unfold array_from_variant in Hrun.
  apply bind_inv in Hrun as (arr & s1 & Hnew & Hrun).
  unfold g_ptr_array_new_with_free_func, g_object_new in Hnew.
  injection Hnew as <- <-.
  set (arr := fresh (dom (heap s))) in *.
  pose proof (aside_free _ _ _ Hin (fresh_heap (heap s))) as Harr0.
  fold arr in Harr0.
  match type of Hrun with _ ?x = _ => set (s1 := x) in * end.
  assert (aside s0 s1) as Hin1.
  { eapply (aside_insert s0 s _ arr
              (mkBlock 1 [] (PPtrArray [] (Some Notify_g_object_unref))));
      [exact Hin|exact Harr0|reflexivity| |reflexivity|reflexivity].
    simpl. by intros pdata f [= <- _]. }
  apply bind_inv in Hrun as (child & s2 & Hchild & Hrun).
  assert (s2 = s1) as ->.
  { unfold g_variant_get_child_value in Hchild.
    destruct (g_variant_children result) as [l|]; [|discriminate].
    destruct (l !! 0); [|discriminate]. by injection Hchild as _ <-. }
  apply bind_inv in Hrun as (len & s3 & Hlen & Hrun).
  assert (s3 = s1) as ->.
  { unfold g_variant_iter_init in Hlen.
    destruct (g_variant_children child) as [l|]; [|discriminate].
    by injection Hlen as _ <-. }
  apply bind_inv in Hrun as (error & s4 & Hloop & Hrun).
  apply (array_from_variant_loop_aside s0) in Hloop; [|done..].
  apply bind_inv in Hrun as (array & s5 & Hchoice & Hrun).
  apply bind_inv in Hrun as (u & s6 & Hunref & Hret).
  injection Hret as _ <-.
  eapply g_ptr_array_unref_aside; [|exact Harr0|exact Hunref].
  destruct error as [e|].
  - by injection Hchoice as _ <-.
  - apply bind_inv in Hchoice as (a & s7 & Href & Hret).
    injection Hret as _ <-.
    eapply g_ptr_array_ref_aside; [exact Hloop|exact Harr0|exact Href].
Qed.

Lemma g_dbus_proxy_call_sync_aside s0 px method parameters c s r s' :
  aside s0 s →
  g_dbus_proxy_call_sync px method parameters c s = Some (r, s') →
  aside s0 s'.
Proof.
  intros Hin. unfold g_dbus_proxy_call_sync.
  destruct (proxy_call (world s) px method parameters c) as [r' w].
  intros [= _ <-]. by eapply aside_same.
Qed.

Lemma with_proxy_aside {A} client (val : A) k s r s' :
  (∀ px, k px s = Some (r, s') → aside s s') →
  with_proxy client val k s = Some (r, s') →
  aside s s'.
Proof.
  intros Hk. unfold with_proxy, bind, get_state.
  destruct (client_priv (heap s) client) as [priv|].
  - destruct (proxy priv) as [px|]; [apply Hk|].
    intros [= _ <-]. by eapply aside_same; [apply aside_refl|..].
  - intros [= _ <-]. by eapply aside_same; [apply aside_refl|..].
Qed.

Lemma list_sync_aside v failure client method parameters c s r s' :
  list_sync v failure client method parameters c s = Some (r, s') →
  aside s s'.
Proof.
  apply with_proxy_aside. intros px Hrun.
  apply bind_inv in Hrun as (result & s1 & Hcall & Hrun).
  apply (g_dbus_proxy_call_sync_aside s) in Hcall; [|apply aside_refl].
  destruct result as [result|e].
  - by eapply array_from_variant_aside.
  - by injection Hrun as _ <-.
Qed.

Lemma object_sync_aside v client method parameters c s r s' :
  object_sync v client method parameters c s = Some (r, s') →
  aside s s'.
Proof.
  apply with_proxy_aside. intros px Hrun.
  apply bind_inv in Hrun as (result & s1 & Hcall & Hrun).
  apply (g_dbus_proxy_call_sync_aside s) in Hcall; [|apply aside_refl].
  destruct result as [result|e]; [|by injection Hrun as _ <-].
  apply bind_inv in Hrun as (p & s2 & Hpath & Hrun).
  apply g_variant_get_o_pure in Hpath as ->.
  apply bind_inv in Hrun as (object & s3 & Hnew & Hrun).
  apply (cd_handle_new_aside s) in Hnew as [Hin3 Hobj]; [|done].
  apply bind_inv in Hrun as (ok & s4 & Hbind & Hrun).
  apply (cd_handle_set_object_path_sync_aside s) in Hbind; [|done..].
  destruct ok as [e|].
  - apply bind_inv in Hrun as (u & s5 & Hunref & Hret).
    injection Hret as _ <-.
    eapply g_object_unref_aside; [exact Hbind|exact Hobj|exact Hunref].
  - apply bind_inv in Hrun as (u & s5 & Href & Hrun).
    apply bind_inv in Hrun as (u' & s6 & Hunref & Hret).
    injection Hret as _ <-.
    eapply g_object_unref_aside; [|exact Hobj|exact Hunref].
    eapply g_object_ref_aside; [exact Hbind|exact Hobj|exact Href].
Qed.

Lemma delete_sync_aside client method id c s r s' :
  delete_sync client method id c s = Some (r, s') →
  aside s s'.
Proof.
  apply with_proxy_aside. intros px Hrun.
  apply bind_inv in Hrun as (result & s1 & Hcall & Hrun).
  apply (g_dbus_proxy_call_sync_aside s) in Hcall; [|apply aside_refl].
  destruct result; by injection Hrun as _ <-.
Qed.

Lemma run_aside op client c s r s' :
  run op client c s = Some (r, s') → aside s s'.
Proof.
  intros Hrun.
  destruct op; simpl in Hrun; unfold with_pointer, with_boolean in Hrun;
    apply bind_inv in Hrun as (r1 & s1 & Hrun & Hret);
    injection Hret as _ <-.
  - by eapply list_sync_aside.
  - by eapply list_sync_aside.
  - by eapply list_sync_aside.
  - by eapply object_sync_aside.
  - by eapply object_sync_aside.
  - by eapply delete_sync_aside.
  - by eapply delete_sync_aside.
  - by eapply object_sync_aside.
  - by eapply object_sync_aside.
  - eapply aside_same; [apply aside_refl| |].
    + by eapply cd_client_get_daemon_version_frame.
    + unfold cd_client_get_daemon_version, bind, get_state in Hrun.
      destruct (client_priv (heap s) client); by injection Hrun as _ <-.
Qed.

(** X13: whatever the daemon replies, well formed or not, a call other
    than connect that returns has left the static pointer and every
    block that was live before it exactly as they were: handles and
    arrays obtained earlier stay valid, and the client is never
    released behind the caller's back. *)
Theorem calls_leave_live_objects_alone op client c s r s' :
  run op client c s = Some (r, s') →
  cd_client_object s' = cd_client_object s ∧
  ∀ x b, heap s !! x = Some b → heap s' !! x = Some b.
Proof.
  intros Hrun. apply run_aside in Hrun as (Hptr & Hold & _). done.
Qed.



(** ** The static pointer over the life of a process *)

Lemma clear_weak_pointers_pointer s wp :
  cd_client_object (foldr clear_weak_pointer s wp)
  = match wp with
    | [] => cd_client_object s
    | _ => None
    end.
Proof. by destruct wp as [|[] wp]. Qed.

Lemma g_object_unref_singleton x s u s' :
  singleton_ok s →
  g_object_unref x s = Some (u, s') →
  singleton_ok s'.
Proof.
  intros Hok. unfold g_object_unref.
  destruct (heap s !! x) as [[rc wp pl]|] eqn:Hx; [|discriminate]. simpl.
  assert (∀ s1,
            heap s1 = delete x (heap s) →
            cd_client_object s1
            = cd_client_object (foldr clear_weak_pointer s wp) →
            singleton_ok s1) as Hfinal.
  { intros s1 Hheap Hptr a Ha. rewrite Hptr, clear_weak_pointers_pointer in Ha.
    destruct wp as [|l wp]; [|discriminate].
    destruct (Hok a Ha) as (n & wp' & priv & Hblock & Hloc).
    destruct (decide (a = x)) as [->|Hne].
    - rewrite Hx in Hblock. injection Hblock as _ <- _.
      by apply elem_of_nil in Hloc.
    - exists n, wp', priv. rewrite Hheap, lookup_delete_ne by done. done. }
  assert (∀ s1 : Process,
            heap s1 = delete x (heap (foldr clear_weak_pointer s wp)) →
            cd_client_object s1
            = cd_client_object (foldr clear_weak_pointer s wp) →
            singleton_ok s1) as Hfinal'.
  { intros s1 Hheap. apply Hfinal. by rewrite Hheap, clear_weak_pointers_heap. }
  destruct rc as [|[|n]].
  - unfold cd_client_finalize, cd_handle_finalize, modify.
    destruct pl; try discriminate; intros [= _ <-]; by apply Hfinal'.
  - unfold cd_client_finalize, cd_handle_finalize, modify.
    destruct pl; try discriminate; intros [= _ <-]; by apply Hfinal'.
  - intros [= _ <-] a Ha. simpl in *.
    destruct (Hok a Ha) as (m & wp' & priv & Hblock & Hloc).
    destruct (decide (a = x)) as [->|Hne].
    + rewrite Hx in Hblock. injection Hblock as Hm Hwp Hpl.
      subst m wp' pl. exists n, wp, priv. by rewrite lookup_insert_eq.
    + exists m, wp', priv. by rewrite lookup_insert_ne.
Qed.

Lemma foreach_unref_singleton l :
  ∀ s u s',
  singleton_ok s →
  foreach g_object_unref l s = Some (u, s') →
  singleton_ok s'.
Proof.
  induction l as [|x l IH]; intros s u s' Hok Hrun.
  - by injection Hrun as _ <-.
  - simpl in Hrun. apply bind_inv in Hrun as (u1 & s1 & Hfirst & Hrest).
    eapply IH; [|exact Hrest]. by eapply g_object_unref_singleton.
Qed.

(** Releasing an object never turns another block into a client. *)
Lemma g_object_unref_payload x s u s' y b' :
  g_object_unref x s = Some (u, s') →
  heap s' !! y = Some b' →
  ∃ b, heap s !! y = Some b ∧ payload b = payload b'.
Proof.
  unfold g_object_unref.
  destruct (heap s !! x) as [[rc wp pl]|] eqn:Hx; [|discriminate]. simpl.
  assert (∀ s1,
            heap s1 = delete x (heap (foldr clear_weak_pointer s wp)) →
            heap s1 !! y = Some b' →
            ∃ b, heap s !! y = Some b ∧ payload b = payload b') as Hfinal.
  { intros s1 ->. rewrite clear_weak_pointers_heap.
    destruct (decide (x = y)) as [->|Hne].
    - by rewrite lookup_delete_eq.
    - rewrite lookup_delete_ne by done. intros Hy. by exists b'. }
  destruct rc as [|[|n]].
  - unfold cd_client_finalize, cd_handle_finalize, modify.
    destruct pl; try discriminate; intros [= _ <-]; by apply Hfinal.
  - unfold cd_client_finalize, cd_handle_finalize, modify.
    destruct pl; try discriminate; intros [= _ <-]; by apply Hfinal.
  - intros [= _ <-]. simpl. destruct (decide (x = y)) as [->|Hne].
    + rewrite lookup_insert_eq. intros [= <-]. eexists. by split.
    + rewrite lookup_insert_ne by done. intros Hy. by exists b'.
Qed.

Lemma foreach_unref_payload l :
  ∀ s u s' y b',
  foreach g_object_unref l s = Some (u, s') →
  heap s' !! y = Some b' →
  ∃ b, heap s !! y = Some b ∧ payload b = payload b'.
Proof.
  induction l as [|x l IH]; intros s u s' y b' Hrun Hy.
  - injection Hrun as _ <-. by exists b'.
  - simpl in Hrun. apply bind_inv in Hrun as (u1 & s1 & Hfirst & Hrest).
    destruct (IH _ _ _ _ _ Hrest Hy) as (b1 & Hb1 & Hp1).
    destruct (g_object_unref_payload _ _ _ _ _ _ Hfirst Hb1) as (b & Hb & Hp).
    exists b. split; [done|congruence].
Qed.

Lemma g_ptr_array_unref_singleton arr s u s' :
  singleton_ok s →
  g_ptr_array_unref arr s = Some (u, s') →
  singleton_ok s'.
Proof.
  intros Hok. unfold g_ptr_array_unref.
  destruct (heap s !! arr) as [[rc wp [|?|pdata f]]|] eqn:Harr;
    try discriminate.
  assert (∀ m : M unit,
            (∀ s1 u1 s2, singleton_ok s1 → m s1 = Some (u1, s2) →
                         singleton_ok s2) →
            (∀ s2 u1 y b', m s = Some (u1, s2) → heap s2 !! y = Some b' →
                           ∃ b, heap s !! y = Some b ∧ payload b = payload b') →
            (m ;;; modify (λ s1, set_heap (delete arr (heap s1)) s1)) s
            = Some (u, s') → singleton_ok s') as Hlast.
  { intros m Hm Hpl Hrun. apply bind_inv in Hrun as (u1 & s1 & Hm1 & Hdel).
    injection Hdel as _ <-. intros a Ha. simpl in Ha.
    destruct (Hm _ _ _ Hok Hm1 a Ha) as (n & wp' & priv & Hblock & Hloc).
    exists n, wp', priv. split; [|done]. simpl.
    rewrite lookup_delete_ne; [done|]. intros <-.
    destruct (Hpl _ _ _ _ Hm1 Hblock) as (b & Hb & Hp).
    rewrite Harr in Hb. injection Hb as <-. discriminate Hp. }
  destruct rc as [|[|n]].
  - apply Hlast; destruct f as [[]|].
    + intros s1 u1 s2. apply foreach_unref_singleton.
    + by intros s1 u1 s2 Hs1 [= _ <-].
    + intros s2 u1 y b'. apply foreach_unref_payload.
    + intros s2 u1 y b' [= _ <-] Hy. by exists b'.
  - apply Hlast; destruct f as [[]|].
    + intros s1 u1 s2. apply foreach_unref_singleton.
    + by intros s1 u1 s2 Hs1 [= _ <-].
    + intros s2 u1 y b' . apply foreach_unref_payload.
    + intros s2 u1 y b' [= _ <-] Hy. by exists b'.
  - intros [= _ <-] a Ha. simpl in *.
    destruct (Hok a Ha) as (m & wp' & priv & Hblock & Hloc).
    exists m, wp', priv. split; [|done].
    rewrite lookup_insert_ne; [done|]. intros <-. congruence.
Qed.

Lemma cd_client_new_singleton s a s' :
  singleton_ok s →
  cd_client_new s = Some (a, s') →
  singleton_ok s'.
Proof.
  intros Hok. unfold cd_client_new, bind, get_state.
  destruct (cd_client_object s) as [a0|] eqn:Hptr.
  - destruct (Hok a0 Hptr) as (n & wp & priv & Hblock & Hloc).
    unfold g_object_ref. rewrite Hblock. simpl. intros [= _ <-] a' Ha'.
    simpl in *. rewrite Hptr in Ha'. injection Ha' as <-.
    exists (S n), wp, priv. by rewrite lookup_insert_eq.
  - unfold g_object_new, modify, g_object_add_weak_pointer. simpl.
    rewrite lookup_insert_eq. simpl. intros [= _ <-] a' Ha'. simpl in *.
    injection Ha' as <-. eexists 0, _, _. rewrite lookup_insert_eq.
    split; [reflexivity|]. apply list_elem_of_here.
Qed.

Lemma cd_client_connect_sync_singleton client c s r s' :
  singleton_ok s →
  cd_client_connect_sync client c s = Some (r, s') →
  singleton_ok s'.
Proof.
  intros Hok. unfold cd_client_connect_sync, bind, get_state.
  assert (∀ s1, heap s1 = heap s → cd_client_object s1 = cd_client_object s →
                singleton_ok s1) as Hsame.
  { intros s1 Hheap Hptr a. rewrite Hheap, Hptr. apply Hok. }
  destruct (client_priv (heap s) client) as [priv|] eqn:Hpriv;
    [|intros [= _ <-]; by apply Hsame].
  destruct (proxy priv) as [px|]; [intros [= _ <-]; by apply Hsame|].
  unfold g_dbus_proxy_new_for_bus_sync.
  destruct (proxy_new_for_bus (world s) COLORD_DBUS_SERVICE COLORD_DBUS_PATH
              COLORD_DBUS_INTERFACE c) as [[px|e] w];
    [|intros [= _ <-]; by apply Hsame].
  unfold set_client_priv. simpl.
  destruct (heap s !! client) as [[rc wp [priv0| |]]|] eqn:Hblock;
    try discriminate.
  intros [= _ <-] a Ha. simpl in *.
  destruct (Hok a Ha) as (n & wp' & priv' & Hblock' & Hloc).
  destruct (decide (a = client)) as [->|Hne].
  - rewrite Hblock in Hblock'. injection Hblock' as -> -> _.
    eexists n, wp', _. by rewrite lookup_insert_eq.
  - exists n, wp', priv'. by rewrite lookup_insert_ne.
Qed.

Lemma cd_client_dbus_signal_cb_inv px sender name parameters client s u s' :
  cd_client_dbus_signal_cb px sender name parameters client s = Some (u, s') →
  ∃ m, s' = s ∨ s' = record_message LOG_WARNING m s.
Proof.
  unfold cd_client_dbus_signal_cb.
  repeat case_decide;
    try (intros Hrun; apply bind_inv in Hrun as (p & s1 & Hp & Hret);
         apply g_variant_get_o_pure in Hp as ->; injection Hret as _ <-;
         exists ""; by left);
    intros [= _ <-]; eexists; by right.
Qed.

Lemma step_singleton s s' :
  singleton_ok s → step s s' → singleton_ok s'.
Proof.
  intros Hok Hstep.
  assert (∀ s1, heap s1 = heap s → cd_client_object s1 = cd_client_object s →
                singleton_ok s1) as Hsame.
  { intros s1 Hheap Hptr a. rewrite Hheap, Hptr. apply Hok. }
  destruct Hstep as [s a s' Hrun|s client c r s' Hrun|s op client c r s' Hrun
                    |s px sender name parameters client s' Hrun
                    |s object prop_id value pspec r s' Hrun
                    |s a s' Hrun|s a s' Hrun].
  - by eapply cd_client_new_singleton.
  - by eapply cd_client_connect_sync_singleton.
  - apply run_aside in Hrun as (Hptr & Hold & _).
    intros a Ha. rewrite Hptr in Ha.
    destruct (Hok a Ha) as (n & wp & priv & Hblock & Hloc).
    exists n, wp, priv. split; [by apply Hold|done].
  - apply cd_client_dbus_signal_cb_inv in Hrun as [m [->| ->]]; by apply Hsame.
  - unfold cd_client_get_property, bind, get_state in Hrun.
    destruct (client_priv (heap s) object); [|discriminate].
    case_decide; injection Hrun as _ <-; by apply Hsame.
  - by eapply g_object_unref_singleton.
  - by eapply g_ptr_array_unref_singleton.
Qed.

(** X14: in a process that starts with the static pointer NULL, whatever
    sequence of client calls, signal deliveries and releases of objects
    and arrays it makes, the static pointer is never stale: when it is
    not NULL it names a live client that holds at least one reference
    and has the pointer registered as its weak pointer. *)
Theorem static_pointer_is_never_stale s s' :
  cd_client_object s = None →
  rtc step s s' →
  singleton_ok s'.
Proof.
  intros Hnull Hsteps.
  assert (singleton_ok s) as Hok.
  { intros a Ha. rewrite Hnull in Ha. discriminate. }
  clear Hnull.
  induction Hsteps as [s|s s1 s' Hstep Hsteps IH]; [done|].
  apply IH. by eapply step_singleton.
Qed.

(** X15: taking a reference with [cd_client_new] and dropping it with
    [g_object_unref] leaves the heap and the static pointer as they
    were, both when no client exists (the client made is finalized and
    the pointer is reset through the weak pointer) and when one does. *)
Theorem cd_client_new_then_unref s :
  cd_client_object s = None ∨
  (∃ a n wp priv,
     cd_client_object s = Some a ∧
     heap s !! a = Some (mkBlock (S n) wp (PClient priv))) →
  ∃ a s1 s2,
    cd_client_new s = Some (a, s1) ∧
    g_object_unref a s1 = Some (tt, s2) ∧
    heap s2 = heap s ∧
    cd_client_object s2 = cd_client_object s.
Proof.
  intros [Hnull|(a & n & wp & priv & Hptr & Hblock)].
  - unfold cd_client_new, bind, get_state. rewrite Hnull.
    unfold g_object_new, modify, g_object_add_weak_pointer. simpl.
    rewrite lookup_insert_eq. simpl.
    eexists _, _, _. split; [reflexivity|].
    unfold g_object_unref. simpl. rewrite lookup_insert_eq. simpl.
    split_and!; [reflexivity|..]; simpl.
    + rewrite !insert_insert_eq, delete_insert_eq.
      apply delete_id, fresh_heap.
    + done.
  - unfold cd_client_new, bind, get_state. rewrite Hptr.
    unfold g_object_ref. rewrite Hblock. simpl.
    eexists _, _, _. split; [reflexivity|].
    unfold g_object_unref. simpl. rewrite lookup_insert_eq. simpl.
    split_and!; [reflexivity|..]; simpl.
    + rewrite insert_insert_eq. by apply insert_id.
    + done.
Qed.

(** ** More on signals *)

(** X16: whatever frame the proxy delivers, the signal callback asks
    nothing of the daemon and touches no object: when it returns, the
    heap, the static pointer, the daemon and the trace of remote calls
    are what they were. *)
Theorem signal_callback_touches_nothing px sender name parameters client
    s u s' :
  cd_client_dbus_signal_cb px sender name parameters client s = Some (u, s') →
  heap s' = heap s ∧
  cd_client_object s' = cd_client_object s ∧
  world s' = world s ∧
  remote_calls s' = remote_calls s.
Proof.
  intros Hrun.
  by apply cd_client_dbus_signal_cb_inv in Hrun as [m [->| ->]].
Qed.

End Properties.

(** * The statements on the scripted daemon *)

Import Scripted.

Lemma list_call_bind_failure_witness :
  ∃ s',
    list_call (H := platform) ListDevices 0 None (connected colord_stale)
    = Some ((None,
             Some (mkGError "cd_client_error" 0
                     "Failed to set device object path: Failed to connect to /devices/canon-5d")),
            s') ∧
    heap s' = heap (connected colord_stale) ∧
    remote_calls s'
    = remote_calls (connected colord_stale)
      ++ [ProxyCall "GetDevices" None;
          SetObjectPath Device "/devices/epson-9800";
          SetObjectPath Device "/devices/dell-u2410";
          SetObjectPath Device "/devices/canon-5d"].
Proof.
  apply (list_call_bind_failure (H := platform) ListDevices
           (connected colord_stale) 0 (connected_proxy colord_stale) None
           (devices colord_stale) colord_stale 2
           (device_error "Failed to connect to /devices/canon-5d")
           colord_stale).
  - is_connected.
  - by_running.
  - by_running.
Defined.

Lemma get_devices_success_witness :
  ∃ addrs,
    heap (after (cd_client_get_devices_sync (H := platform) 0 None)
                (connected colord)) !! 1
    = Some (array_block addrs) ∧
    length addrs = 3 ∧
    Forall2 (λ a p,
               heap (after (cd_client_get_devices_sync (H := platform) 0 None)
                           (connected colord)) !! a
               = Some (handle_block Device p))
            addrs (devices colord) ∧
    NoDup addrs ∧
    (None : option GError) = None.
Proof.
  apply (get_devices_success (H := platform) (connected colord) 0
           (connected_proxy colord) None (devices colord) colord 1 None
           (after (cd_client_get_devices_sync (H := platform) 0 None)
                  (connected colord))).
  - is_connected.
  - by_running.
  - by_running.
Defined.

(** C3 as the claim states it fails: on a client that was created and
    never connected, [cd_client_get_devices_sync] returns NULL and sets
    no error at all. *)
Lemma unconnected_get_devices_sets_no_error :
  unconnected (H := platform) (created colord) 0 ∧
  (∃ s',
     cd_client_get_devices_sync (H := platform) 0 None (created colord)
     = Some ((None, None), s')) ∧
  ¬ ∃ e s',
      cd_client_get_devices_sync (H := platform) 0 None (created colord)
      = Some ((None, Some e), s').
Proof.
  split_and!.
  - is_connected.
  - eexists. by_running.
  - intros (e & s' & Hrun). vm_compute in Hrun. discriminate.
Qed.

Lemma unconnected_call_returns_failure_value_witness :
  ∃ s',
    run (H := platform) GetDevices 0 None (created colord)
    = Some ((Pointer None, None), s') ∧
    remote_calls s' = remote_calls (created colord) ∧
    world s' = world (created colord) ∧
    heap s' = heap (created colord).
Proof.
  apply (unconnected_call_returns_failure_value (H := platform) GetDevices
           (created colord) 0 None (mkPriv None None)); by_running.
Defined.

(** C4 as the claim states it fails: a second connect on a connected
    client returns FALSE and sets no error at all. *)
Lemma connect_twice_sets_no_error :
  connected_with (H := platform) (connected colord) 0 (connected_proxy colord) ∧
  (∃ s',
     cd_client_connect_sync (H := platform) 0 None (connected colord)
     = Some ((false, None), s')) ∧
  ¬ ∃ e s',
      cd_client_connect_sync (H := platform) 0 None (connected colord)
      = Some ((false, Some e), s').
Proof.
  split_and!.
  - is_connected.
  - eexists. by_running.
  - intros (e & s' & Hrun). vm_compute in Hrun. discriminate.
Qed.

Lemma connect_twice_returns_false_witness :
  ∃ s',
    cd_client_connect_sync (H := platform) 0 None (connected colord)
    = Some ((false, None), s') ∧
    heap s' = heap (connected colord) ∧
    world s' = world (connected colord) ∧
    remote_calls s' = remote_calls (connected colord) ∧
    connected_with (H := platform) s' 0 (connected_proxy colord).
Proof.
  apply (connect_twice_returns_false (H := platform) (connected colord) 0
           (connected_proxy colord) None).
  is_connected.
Defined.

(** C5 as the claim states it fails: when the bind of the created path
    fails, [create_device] hands on the error of the bind, which is not
    of the client's domain. *)
Lemma create_device_hands_on_bind_error :
  ∃ e s',
    cd_client_create_device_sync (H := platform) 0 "epson-9800" 0 None
                                 (connected colord_fragile)
    = Some ((None, Some e), s') ∧
    domain e = "cd_device_error" ∧
    ¬ client_error (H := platform) e.
Proof.
  exists (device_error "Failed to connect to /devices/epson-9800").
  eexists. split_and!.
  - by_running.
  - reflexivity.
  - intros [Hdomain _]. discriminate Hdomain.
Qed.

Lemma create_device_outcomes_witness :
  ∃ device s',
    cd_client_create_device_sync (H := platform) 0 "epson-9800" 0 None
                                 (connected colord)
    = Some ((Some device, None), s') ∧
    heap (connected colord) !! device = None ∧
    heap s'
    = <[device := handle_block Device "/devices/epson-9800"]>
        (heap (connected colord)) ∧
    remote_calls s'
    = remote_calls (connected colord)
      ++ [ProxyCall "CreateDevice"
            (Some (GVTuple [GVString "epson-9800"; GVUint32 0]));
          SetObjectPath Device "/devices/epson-9800"].
Proof.
  assert (connected_with (H := platform) (connected colord) 0
                         (connected_proxy colord)) as Hconn
    by is_connected.
  apply (proj2 (proj2 (create_device_outcomes (H := platform)
                         (connected colord) 0 (connected_proxy colord) None
                         "epson-9800" 0 Hconn))
           "/devices/epson-9800" colord colord); by_running.
Defined.

Lemma delete_call_reports_the_reply_witness :
  ∃ s',
    delete_call (H := platform) DeleteProfileById 0 "icc-009" None
                (connected colord)
    = Some ((false,
             Some (mkGError "cd_client_error" 0
                     "Failed to DeleteProfile: profile does not exist")),
            s') ∧
    heap s' = heap (connected colord) ∧
    connected_with (H := platform) s' 0 (connected_proxy colord) ∧
    remote_calls s'
    = remote_calls (connected colord)
      ++ [ProxyCall "DeleteProfile" (Some (GVTuple [GVString "icc-009"]))].
Proof.
  apply (delete_call_reports_the_reply (H := platform) DeleteProfileById
           (connected colord) 0 (connected_proxy colord) None "icc-009").
  is_connected.
Defined.

(** A second reference to the connected client. *)
Lemma cd_client_new_is_a_singleton_witness :
  let s := after (cd_client_new (H := platform)) (connected colord) in
  let priv := mkPriv (Some (connected_proxy colord)) None in
  (∃ s',
     cd_client_new s = Some (0, s') ∧
     heap s' = <[0 := mkBlock 3 [Loc_cd_client_object] (PClient priv)]> (heap s) ∧
     cd_client_object s' = Some 0) ∧
  (∃ s1,
     release 2 0 s = Some (tt, s1) ∧
     heap s1 = delete 0 (heap s) ∧
     cd_client_object s1 = None ∧
     ∃ a' s2,
       cd_client_new s1 = Some (a', s2) ∧
       heap s1 !! a' = None ∧
       heap s2
       = <[a' := mkBlock 1 [Loc_cd_client_object] (PClient (mkPriv None None))]>
           (heap s1) ∧
       cd_client_object s2 = Some a').
Proof.
  apply (cd_client_new_is_a_singleton (H := platform)
           (after (cd_client_new (H := platform)) (connected colord))
           0 1 [Loc_cd_client_object]
           (mkPriv (Some (connected_proxy colord)) None)).
  - by_running.
  - by_running.
  - apply list_elem_of_here.
Defined.

(** On a root object whose cache has a "Title": connect succeeds and
    caches the title as the daemon version, which the getter then
    returns. *)
Theorem connect_caches_the_title :
  properties colord_titled !! "version" = None ∧
  ∃ s',
    cd_client_connect_sync (H := platform) 0 None (created colord_titled)
    = Some ((true, None), s') ∧
    client_priv s'.(heap) 0
    = Some (mkPriv (Some (connected_proxy colord_titled))
                   (Some "Color Manager")) ∧
    cd_client_get_daemon_version 0 s' = Some (Some "Color Manager", s') ∧
    remote_calls s'
    = [ProxyNew "org.freedesktop.ColorManager" "/org/freedesktop/ColorManager"
                "org.freedesktop.ColorManager"].
Proof.
  split; [by_running|].
  exists (connected colord_titled). split_and!; by_running.
Qed.

Lemma connect_tolerates_absent_version_witness :
  ∃ s',
    cd_client_connect_sync (H := platform) 0 None (created colord)
    = Some ((true, None), s') ∧
    client_priv (heap s') 0
    = Some (mkPriv (Some (connected_proxy colord)) None) ∧
    remote_calls s'
    = remote_calls (created colord)
      ++ [ProxyNew "org.freedesktop.ColorManager"
            "/org/freedesktop/ColorManager" "org.freedesktop.ColorManager"] ∧
    cd_client_get_daemon_version 0 s' = Some (None, s').
Proof.
  apply (connect_tolerates_absent_version (H := platform) (created colord)
           0 None 1 [Loc_cd_client_object] (mkPriv None None)
           (mkProxy (properties colord) []) colord); by_running.
Defined.

Lemma run_keeps_client_state_witness :
  client_priv
    (heap (after (run (H := platform) GetDevices 0 None) (connected colord))) 0
  = client_priv (heap (connected colord)) 0.
Proof.
  apply (run_keeps_client_state (H := platform) GetDevices 0 None
           (connected colord) (Pointer (Some 1), None)
           (after (run (H := platform) GetDevices 0 None) (connected colord))).
  by_running.
Defined.

(** * The further properties on the scripted daemons *)

Lemma list_call_remote_error_witness :
  ∃ s',
    list_call (H := Refusing.platform) ListProfiles 0 None Refusing.connected
    = Some ((None,
             Some (mkGError "cd_client_error" 0
                     "Failed to GetProfiles: access denied")), s') ∧
    heap s' = heap Refusing.connected ∧
    world s' = colord ∧
    remote_calls s'
    = remote_calls Refusing.connected ++ [ProxyCall "GetProfiles" None].
Proof.
  apply (list_call_remote_error (H := Refusing.platform) ListProfiles
           Refusing.connected 0 (connected_proxy colord) None
           (bus_error "access denied") colord).
  - is_connected.
  - by_running.
Defined.

Lemma list_call_success_witness :
  ∃ arr addrs s',
    list_call (H := platform) ListProfiles 0 None (connected colord)
    = Some ((Some arr, None), s') ∧
    extends (heap (connected colord)) arr Profile addrs (profiles colord)
            (heap s') ∧
    world s' = colord ∧
    remote_calls s'
    = remote_calls (connected colord)
      ++ [ProxyCall "GetProfiles" None;
          SetObjectPath Profile "/profiles/icc-001";
          SetObjectPath Profile "/profiles/icc-002"].
Proof.
  apply (list_call_success (H := platform) ListProfiles (connected colord) 0
           (connected_proxy colord) None (profiles colord) colord 2 colord).
  - is_connected.
  - by_running.
  - by_running.
Defined.

Lemma list_call_empty_reply_witness :
  ∃ arr s',
    list_call (H := platform) (@ListDevicesByKind platform 1) 0 None
              (connected colord_titled)
    = Some ((Some arr, None), s') ∧
    heap (connected colord_titled) !! arr = None ∧
    heap s' = <[arr := array_block []]> (heap (connected colord_titled)) ∧
    remote_calls s'
    = remote_calls (connected colord_titled)
      ++ [ProxyCall "GetDevicesByKind" (Some (GVTuple [GVString "display"]))].
Proof.
  apply (list_call_empty_reply (H := platform) (@ListDevicesByKind platform 1)
           (connected colord_titled) 0 (connected_proxy colord_titled) None
           colord_titled).
  - is_connected.
  - by_running.
Defined.

Lemma list_call_then_unref_witness :
  ∃ arr s' s'',
    list_call (H := platform) ListDevices 0 None (connected colord)
    = Some ((Some arr, None), s') ∧
    g_ptr_array_unref arr s' = Some (tt, s'') ∧
    heap s'' = heap (connected colord) ∧
    cd_client_object s'' = cd_client_object (connected colord).
Proof.
  apply (list_call_then_unref (H := platform) ListDevices (connected colord) 0
           (connected_proxy colord) None (devices colord) colord 3 colord).
  - is_connected.
  - by_running.
  - by_running.
Defined.

Lemma list_calls_share_no_handle_witness :
  ∃ arr1 addrs1 s1 arr2 addrs2 s2,
    list_call (H := platform) ListDevices 0 None (connected colord)
    = Some ((Some arr1, None), s1) ∧
    list_call (H := platform) ListProfiles 0 None s1
    = Some ((Some arr2, None), s2) ∧
    arr1 ≠ arr2 ∧
    (∀ a, a ∈ addrs1 → a ∉ addrs2) ∧
    heap s2 !! arr1 = Some (array_block addrs1) ∧
    heap s2 !! arr2 = Some (array_block addrs2) ∧
    Forall2 (λ a p, heap s2 !! a = Some (handle_block Device p))
            addrs1 (devices colord) ∧
    Forall2 (λ a p, heap s2 !! a = Some (handle_block Profile p))
            addrs2 (profiles colord).
Proof.
  apply (list_calls_share_no_handle (H := platform) ListDevices ListProfiles
           (connected colord) 0 (connected_proxy colord) None None
           (devices colord) (profiles colord) colord 3 colord colord 2 colord).
  - is_connected.
  - by_running.
  - by_running.
  - by_running.
  - by_running.
Defined.

Lemma object_call_outcomes_witness :
  ∃ s',
    object_call (H := platform) (FindProfileCall "icc-404") 0 None
                (connected colord)
    = Some ((None,
             Some (mkGError "cd_client_error" 0
                     "Failed to FindProfileById: profile does not exist")),
            s') ∧
    heap s' = heap (connected colord) ∧
    remote_calls s'
    = remote_calls (connected colord)
      ++ [ProxyCall "FindProfileById" (Some (GVTuple [GVString "icc-404"]))].
Proof.
  assert (connected_with (H := platform) (connected colord) 0
                         (connected_proxy colord)) as Hconn
    by is_connected.
  apply (proj1 (object_call_outcomes (H := platform) (FindProfileCall "icc-404")
                  (connected colord) 0 (connected_proxy colord) None Hconn)
           (bus_error "profile does not exist") colord).
  by_running.
Defined.

Lemma object_call_then_unref_witness :
  ∃ object s' s'',
    object_call (H := platform) (CreateProfileCall "icc-003" 0) 0 None
                (connected colord)
    = Some ((Some object, None), s') ∧
    g_object_unref object s' = Some (tt, s'') ∧
    heap s'' = heap (connected colord) ∧
    cd_client_object s'' = cd_client_object (connected colord).
Proof.
  apply (object_call_then_unref (H := platform) (CreateProfileCall "icc-003" 0)
           (connected colord) 0 (connected_proxy colord) None
           "/profiles/icc-003" colord colord).
  - is_connected.
  - by_running.
  - by_running.
Defined.

Lemma connect_failure_leaves_unconnected_witness :
  ∃ s',
    cd_client_connect_sync (H := platform) 0 None (created Refusing.colord_down)
    = Some ((false,
             Some (mkGError "cd_client_error" 0
                     "Failed to connect to colord: no such service")), s') ∧
    heap s' = heap (created Refusing.colord_down) ∧
    unconnected (H := platform) s' 0 ∧
    world s' = Refusing.colord_down ∧
    remote_calls s'
    = remote_calls (created Refusing.colord_down)
      ++ [ProxyNew "org.freedesktop.ColorManager"
            "/org/freedesktop/ColorManager" "org.freedesktop.ColorManager"].
Proof.
  apply (connect_failure_leaves_unconnected (H := platform)
           (created Refusing.colord_down) 0 None
           (bus_error "no such service") Refusing.colord_down).
  - is_connected.
  - by_running.
Defined.

Lemma connect_success_connects_witness :
  ∃ s',
    cd_client_connect_sync (H := platform) 0 None (created colord_titled)
    = Some ((true, None), s') ∧
    cd_client_get_daemon_version 0 s' = Some (Some "Color Manager", s') ∧
    ∃ s'',
      cd_client_connect_sync (H := platform) 0 None s'
      = Some ((false, None), s'').
Proof.
  destruct (connect_success_connects (H := platform) (created colord_titled)
              0 None 1 [Loc_cd_client_object] (mkPriv None None)
              (mkProxy (properties colord_titled) []) colord_titled)
    as (s' & Hrun & _ & _ & _ & _ & Hget & Hagain).
  - by_running.
  - by_running.
  - by_running.
  - exists s'. split_and!; [exact Hrun|exact Hget|].
    destruct (Hagain None) as (s'' & Hrefused & _). by exists s''.
Defined.

Lemma calls_on_a_non_client_witness :
  let s := after (cd_client_create_device_sync (H := platform) 0 "epson-9800"
                                               0 None)
                 (connected colord) in
  (∀ op, ∃ s',
     run (H := platform) op 1 None s
     = Some ((failure_value op, None), s') ∧
     heap s' = heap s ∧
     remote_calls s' = remote_calls s ∧
     world s' = world s) ∧
  (∃ s',
     cd_client_connect_sync (H := platform) 1 None s
     = Some ((false, None), s') ∧
     heap s' = heap s ∧
     remote_calls s' = remote_calls s ∧
     world s' = world s).
Proof.
  apply (calls_on_a_non_client (H := platform)
           (after (cd_client_create_device_sync (H := platform) 0 "epson-9800"
                                                0 None)
                  (connected colord))
           1 None 1 []
           (mkHandle Device (Some "/devices/epson-9800") true)).
  by_running.
Defined.

Lemma daemon_version_is_never_refreshed_witness :
  fst <$> cd_client_get_daemon_version (H := platform) 0
            (after (run_all (H := platform)
                      [GetDevices; DeleteProfile "icc-009";
                       CreateDevice "epson-9800" 0] 0 None)
                   (connected colord_titled))
  = fst <$> cd_client_get_daemon_version (H := platform) 0
              (connected colord_titled).
Proof.
  apply (daemon_version_is_never_refreshed (H := platform)
           [GetDevices; DeleteProfile "icc-009"; CreateDevice "epson-9800" 0]
           0 None (connected colord_titled)).
  by_running.
Defined.

Lemma get_property_agrees_with_getter_witness :
  cd_client_get_property (H := platform) 0 PROP_DAEMON_VERSION None
                         "daemon-version" (connected colord_titled)
  = cd_client_get_daemon_version 0 (connected colord_titled) ∧
  cd_client_get_daemon_version (H := platform) 0 (connected colord_titled)
  = Some (Some "Color Manager", connected colord_titled) ∧
  ∀ prop_id, prop_id ≠ PROP_DAEMON_VERSION →
    ∃ m, cd_client_get_property (H := platform) 0 prop_id None
                                "daemon-version" (connected colord_titled)
         = Some (None,
                 record_message LOG_WARNING m (connected colord_titled)).
Proof.
  apply (get_property_agrees_with_getter (H := platform)
           (connected colord_titled) 0
           (mkPriv (Some (connected_proxy colord_titled))
                   (Some "Color Manager"))
           None "daemon-version").
  by_running.
Defined.

Lemma calls_leave_live_objects_alone_witness :
  cd_client_object
    (after (run (H := platform) GetDevices 0 None) (connected colord_stale))
  = cd_client_object (connected colord_stale) ∧
  ∀ x b,
    heap (connected colord_stale) !! x = Some b →
    heap (after (run (H := platform) GetDevices 0 None)
                (connected colord_stale)) !! x
    = Some b.
Proof.
  apply (calls_leave_live_objects_alone (H := platform) GetDevices 0 None
           (connected colord_stale)
           (Pointer None,
            Some (mkGError "cd_client_error" 0
                    "Failed to set device object path: Failed to connect to /devices/canon-5d"))).
  by_running.
Defined.

Lemma static_pointer_is_never_stale_witness :
  singleton_ok (H := platform) (connected colord).
Proof.
  apply (static_pointer_is_never_stale (H := platform) (start colord)).
  - reflexivity.
  - apply (rtc_l _ _ (created colord)).
    + apply (step_new (H := platform) _ 0). by_running.
    + apply rtc_once.
      apply (step_connect (H := platform) _ 0 None (true, None)). by_running.
Defined.

Lemma cd_client_new_then_unref_witness :
  ∃ a s1 s2,
    cd_client_new (H := platform) (connected colord) = Some (a, s1) ∧
    g_object_unref a s1 = Some (tt, s2) ∧
    heap s2 = heap (connected colord) ∧
    cd_client_object s2 = cd_client_object (connected colord).
Proof.
  apply (cd_client_new_then_unref (H := platform) (connected colord)).
  right. exists 0, 0, [Loc_cd_client_object],
           (mkPriv (Some (connected_proxy colord)) None).
  split; by_running.
Defined.

Lemma signal_callback_touches_nothing_witness :
  let s' := after (cd_client_dbus_signal_cb (H := platform)
                     (connected_proxy colord) ":1.42" "DeviceRemoved"
                     (GVTuple [GVObjectPath "/devices/canon-5d"]) 0)
                  (connected colord) in
  heap s' = heap (connected colord) ∧
  cd_client_object s' = cd_client_object (connected colord) ∧
  world s' = world (connected colord) ∧
  remote_calls s' = remote_calls (connected colord).
Proof.
  apply (signal_callback_touches_nothing (H := platform)
           (connected_proxy colord) ":1.42" "DeviceRemoved"
           (GVTuple [GVObjectPath "/devices/canon-5d"]) 0
           (connected colord) tt).
  by_running.
Defined.

Lemma unknown_signal_is_logged_witness :
  cd_client_dbus_signal_cb (H := platform) (connected_proxy colord) ":1.42"
                           "FooBar" (GVTuple []) 0 (connected colord)
  = Some (tt, record_message LOG_WARNING "unhandled signal 'FooBar'"
                (connected colord)).
Proof.
  apply (unknown_signal_is_logged (H := platform) (connected_proxy colord)
           ":1.42" "FooBar" (GVTuple []) 0 (connected colord)).
  apply (bool_decide_unpack _). vm_compute. exact I.
Defined.
